(** * obssim: a shallow embedding of the observation-simulator wrapper

    The development follows [lib/obssim.py]: the spectral-type resolver
    [specFromSpectralType], the scene model [TargetScene.addPointSource] and
    the image compositor [TargetScene.calcImage].

    Conventions of the embedding.
    - Python exceptions are the constructors of [exn]; a call that may raise
      returns a [result].
    - Python floats are idealised as exact numbers: rationals [Q] for the
      decimal literals of the lookup table and of the sort ordinal, reals [R]
      wherever the code calls [cos], [sin], [sqrt] or [arctan2].  That is
      enough where a statement only follows the values through the code;
      the statement that depends on how the floats round, the identity of a
      pointing offset of radius zero, is made on a second embedding of the
      offset lines over binary64, [resolve_offset_b64].
    - Everything the module imports (the PSF simulator, pysynphot, numpy
      arrays, [webbpsf.rebin_array], '%' formatting of floats) is a field of
      the record [Externals]; nothing is assumed about these fields except
      where a theorem says so.
    - [instrument.options] and the files written by [writeto] form the
      mutable environment [Env] that [calcImage] threads through; the local
      variables that survive an iteration of its loop are the record
      [Locals].
    - Calls to the logger only format values that were just computed; they
      are left out. *)

From Stdlib Require Import Reals Lra Lia QArith ZArith String Ascii List Permutation.
From Stdlib Require Import Sorting.Sorted.
From Stdlib Require SpecFloat.
From stdpp Require Import base gmap strings list.
Import ListNotations.
Local Open Scope string_scope.

(** ** Exceptions and results *)

Inductive exn : Type :=
| LookupError (msg : string)
| KeyError (key : string)
| IndexError (msg : string)
| ValueError (msg : string)
| TypeError (msg : string)
| UnboundLocalError (var : string)
| NotImplementedError (msg : string)
| IOError (msg : string)
| ExternalError (msg : string).

Inductive result (A : Type) : Type :=
| Ok (a : A)
| Raise (e : exn).
Arguments Ok {A} a.
Arguments Raise {A} e.

Definition rbind {A B} (r : result A) (k : A -> result B) : result B :=
  match r with
  | Ok a => k a
  | Raise e => Raise e
  end.

Fixpoint rmapM {A B} (f : A -> result B) (l : list A) : result (list B) :=
  match l with
  | [] => Ok []
  | x :: l' => rbind (f x) (fun y => rbind (rmapM f l') (fun ys => Ok (y :: ys)))
  end.

(** ** Python values that reach headers, options and normalizations *)

#[warnings="-register-all"]
Inductive pyval : Type :=
| PyNone
| PyBool (b : bool)
| PyInt (z : Z)
| PyFloat (r : R)
| PyStr (s : string)
| PyTuple (l : list pyval).

(** [isinstance(v, numbers.Number)]: ints, floats and bools are numbers. *)
Definition as_number (v : pyval) : option R :=
  match v with
  | PyBool b => Some (if b then 1%R else 0%R)
  | PyInt z => Some (IZR z)
  | PyFloat r => Some r
  | _ => None
  end.

Definition as_int (v : pyval) : option Z :=
  match v with
  | PyBool b => Some (if b then 1%Z else 0%Z)
  | PyInt z => Some z
  | _ => None
  end.

(** ** Strings *)

(** [sub in s]. *)
Fixpoint contains (sub s : string) : bool :=
  String.prefix sub s ||
  match s with
  | EmptyString => false
  | String _ t => contains sub t
  end.

(** A dict literal with distinct keys, read by key. *)
Fixpoint dict_get {K V} (eqb : K -> K -> bool) (d : list (K * V)) (k : K) : option V :=
  match d with
  | [] => None
  | (k', v) :: d' => if eqb k' k then Some v else dict_get eqb d' k
  end.

(** ** The spectral-type table *)

Definition lookuptable : list (string * (Z * Q * Q)) :=
  [ ("O3V",   (50000%Z, 0%Q, 5%Q));
    ("O5V",   (45000%Z, 0%Q, 5%Q));
    ("O6V",   (40000%Z, 0%Q, 45#10));
    ("O8V",   (35000%Z, 0%Q, 4%Q));
    ("O5I",   (40000%Z, 0%Q, 45#10));
    ("O6I",   (40000%Z, 0%Q, 45#10));
    ("O8I",   (34000%Z, 0%Q, 4%Q));
    ("B0V",   (30000%Z, 0%Q, 4%Q));
    ("B3V",   (19000%Z, 0%Q, 4%Q));
    ("B5V",   (15000%Z, 0%Q, 4%Q));
    ("B8V",   (12000%Z, 0%Q, 4%Q));
    ("B0III", (29000%Z, 0%Q, 35#10));
    ("B5III", (15000%Z, 0%Q, 35#10));
    ("B0I",   (26000%Z, 0%Q, 3%Q));
    ("B5I",   (14000%Z, 0%Q, 25#10));
    ("A0V",   (9500%Z, 0%Q, 4%Q));
    ("A5V",   (8250%Z, 0%Q, 45#10));
    ("A0I",   (9750%Z, 0%Q, 2%Q));
    ("A5I",   (8500%Z, 0%Q, 2%Q));
    ("F0V",   (7250%Z, 0%Q, 45#10));
    ("F5V",   (6500%Z, 0%Q, 45#10));
    ("F0I",   (7750%Z, 0%Q, 2%Q));
    ("F5I",   (7000%Z, 0%Q, 15#10));
    ("G0V",   (6000%Z, 0%Q, 45#10));
    ("G5V",   (5750%Z, 0%Q, 45#10));
    ("G0III", (5750%Z, 0%Q, 3%Q));
    ("G5III", (5250%Z, 0%Q, 25#10));
    ("G0I",   (5500%Z, 0%Q, 15#10));
    ("G5I",   (4750%Z, 0%Q, 1%Q));
    ("K0V",   (5250%Z, 0%Q, 45#10));
    ("K5V",   (4250%Z, 0%Q, 45#10));
    ("K0III", (4750%Z, 0%Q, 2%Q));
    ("K5III", (4000%Z, 0%Q, 15#10));
    ("K0I",   (4500%Z, 0%Q, 1%Q));
    ("K5I",   (3750%Z, 0%Q, 5#10));
    ("M0V",   (3750%Z, 0%Q, 45#10));
    ("M2V",   (3500%Z, 0%Q, 45#10));
    ("M5V",   (3500%Z, 0%Q, 5%Q));
    ("M0III", (3750%Z, 0%Q, 15#10));
    ("M0I",   (3750%Z, 0%Q, 0%Q));
    ("M2I",   (3500%Z, 0%Q, 0%Q)) ].

Definition table_keys : list string := map fst lookuptable.

(** ** The sort key of the listing mode *)

Definition lettervals : list (ascii * Z) :=
  [ ("O"%char, 0%Z); ("B"%char, 10%Z); ("A"%char, 20%Z); ("F"%char, 30%Z);
    ("G"%char, 40%Z); ("K"%char, 50%Z); ("M"%char, 60%Z) ].

(** [int(c)] for a one-character string. *)
Definition int_of_char (c : ascii) : option Z :=
  let n := nat_of_ascii c in
  if (48 <=? n)%nat && (n <=? 57)%nat then Some (Z.of_nat (n - 48)) else None.

Definition sort_sptype (typestr : string) : result Q :=
  match String.get 0 typestr with
  | None => Raise (IndexError "string index out of range")
  | Some letter =>
    match dict_get Ascii.eqb lettervals letter with
    | None => Raise (KeyError (String letter EmptyString))
    | Some lv =>
      let value := inject_Z lv in
      match String.get 1 typestr with
      | None => Raise (IndexError "string index out of range")
      | Some c =>
        match int_of_char c with
        | None => Raise (ValueError "invalid literal for int() with base 10")
        | Some d =>
          let value := (value + inject_Z d)%Q in
          Ok (if contains "III" typestr then (value + (3#10))%Q
              else if contains "I" typestr then (value + (1#10))%Q
              else if contains "V" typestr then (value + (5#10))%Q
              else value)
        end
      end
    end
  end.

(** [list.sort(key=...)]: the keys are computed first, then the list is
    sorted stably, comparing keys with [<]. *)
Definition Qltb (a b : Q) : bool := negb (Qle_bool b a).

Fixpoint insert_keyed {A} (x : Q * A) (l : list (Q * A)) : list (Q * A) :=
  match l with
  | [] => [x]
  | y :: l' => if Qltb (fst y) (fst x) then y :: insert_keyed x l' else x :: y :: l'
  end.

Fixpoint sort_keyed {A} (l : list (Q * A)) : list (Q * A) :=
  match l with
  | [] => []
  | x :: l' => insert_keyed x (sort_keyed l')
  end.

Definition list_sort_key {A} (key : A -> result Q) (l : list A) : result (list A) :=
  rbind (rmapM (fun x => rbind (key x) (fun k => Ok (k, x))) l)
        (fun kl => Ok (map snd (sort_keyed kl))).

(** The ordinal as the specification words it: class base, digit, and a
    fraction for the luminosity suffix that follows the digit. *)
Definition class_base (c : ascii) : option Z :=
  if Ascii.eqb c "O" then Some 0%Z
  else if Ascii.eqb c "B" then Some 10%Z
  else if Ascii.eqb c "A" then Some 20%Z
  else if Ascii.eqb c "F" then Some 30%Z
  else if Ascii.eqb c "G" then Some 40%Z
  else if Ascii.eqb c "K" then Some 50%Z
  else if Ascii.eqb c "M" then Some 60%Z
  else None.

Definition luminosity_fraction (suffix : string) : option Q :=
  if String.eqb suffix "I" then Some (1#10)
  else if String.eqb suffix "III" then Some (3#10)
  else if String.eqb suffix "V" then Some (5#10)
  else None.

Definition spec_ordinal (typestr : string) : option Q :=
  match typestr with
  | String c (String d suffix) =>
    match class_base c, int_of_char d, luminosity_fraction suffix with
    | Some b, Some n, Some f => Some (inject_Z b + inject_Z n + f)%Q
    | _, _, _ => None
    end
  | _ => None
  end.

(** ** Headers, extensions and the mutable environment *)

(** A FITS header: keyword cards (value and comment) and the chronological
    history log. *)
Record Header : Type := mkHeader {
  cards : gmap string (pyval * string);
  history : list string
}.

(** [header.update(key, value, comment)]: the value is replaced; the comment
    is replaced when one is given and kept otherwise. *)
Definition header_update (key : string) (v : pyval) (comment : option string)
    (h : Header) : Header :=
  let old := match cards h !! key with Some (_, c) => c | None => "" end in
  mkHeader (<[key := (v, default old comment)]> (cards h)) (history h).

Definition add_history (line : string) (h : Header) : Header :=
  mkHeader (cards h) (history h ++ [line]).

(** [header[key]]. *)
Definition header_get (key : string) (h : Header) : result pyval :=
  match cards h !! key with
  | Some (v, _) => Ok v
  | None => Raise (KeyError key)
  end.

(** [os.path.basename]: what follows the last slash. *)
Fixpoint basename_aux (acc s : string) : string :=
  match s with
  | EmptyString => acc
  | String c t =>
    if Ascii.eqb c "/" then basename_aux EmptyString t
    else basename_aux (acc ++ String c EmptyString) t
  end.
Definition basename (path : string) : string := basename_aux EmptyString path.

(** [v > 1] for a header value (Python 2 orders numbers before every other
    type, and [None] before numbers). *)
Definition py_gt_one (v : pyval) : bool :=
  match v with
  | PyNone => false
  | PyBool _ => false
  | PyInt z => (1 <? z)%Z
  | PyFloat r => if Rlt_dec 1 r then true else false
  | PyStr _ => true
  | PyTuple _ => true
  end.

Fixpoint str_repeat (n : nat) (s : string) : string :=
  match n with
  | O => EmptyString
  | S n' => s ++ str_repeat n' s
  end.

Fixpoint list_repeat {A} (n : nat) (l : list A) : list A :=
  match n with
  | O => []
  | S n' => l ++ list_repeat n' l
  end.

(** [a * b] on header values. *)
Definition py_mul (a b : pyval) : result pyval :=
  match as_int a, as_int b with
  | Some x, Some y => Ok (PyInt (x * y))
  | _, _ =>
    match as_number a, as_number b with
    | Some x, Some y => Ok (PyFloat (x * y))
    | _, _ =>
      match a, as_int b, as_int a, b with
      | PyStr s, Some n, _, _ => Ok (PyStr (str_repeat (Z.to_nat n) s))
      | PyTuple l, Some n, _, _ => Ok (PyTuple (list_repeat (Z.to_nat n) l))
      | _, _, Some n, PyStr s => Ok (PyStr (str_repeat (Z.to_nat n) s))
      | _, _, Some n, PyTuple l => Ok (PyTuple (list_repeat (Z.to_nat n) l))
      | _, _, _, _ => Raise (TypeError "unsupported operand type(s) for *")
      end
    end
  end.

(** ** Geometry of the pointing offset (real-number idealisation) *)

(** [numpy.arctan2(y, x)], with the conventions of IEEE [atan2] on the
    axes and at the origin. *)
Definition arctan2 (y x : R) : R :=
  if Rlt_dec 0 x then atan (y / x)
  else if Rlt_dec x 0 then
    if Rlt_dec y 0 then (atan (y / x) - PI)%R else (atan (y / x) + PI)%R
  else if Rlt_dec 0 y then (PI / 2)%R
  else if Rlt_dec y 0 then (- (PI / 2))%R
  else 0%R.

Notation "'do' x <- c ; k" := (rbind c (fun x => k))
  (at level 10, x name, c at level 100, k at level 200).

(** ** State and exceptions

    A computation over a mutable state [S] returns the state it leaves
    behind together with its value or the exception it raised. *)

Definition M (S A : Type) : Type := S -> S * result A.

Definition ret {S A} (a : A) : M S A := fun s => (s, Ok a).
Definition raise {S A} (e : exn) : M S A := fun s => (s, Raise e).
Definition lift {S A} (r : result A) : M S A := fun s => (s, r).
Definition bind {S A B} (c : M S A) (k : A -> M S B) : M S B :=
  fun s =>
    match c s with
    | (s', Ok a) => k a s'
    | (s', Raise e) => (s', Raise e)
    end.

Notation "'do!' x <- c ; k" := (bind c (fun x => k))
  (at level 10, x name, c at level 100, k at level 200).

Section Obssim.

(** Spectrum objects and bandpasses of pysynphot, numpy pixel arrays, and
    the keyword arguments handed through to [calcPSF]. *)
Context {Spectrum Bandpass Image Kwargs : Type}.

(** One extension of a FITS file. *)
Record HDU : Type := mkHDU {
  header : Header;
  data : Image
}.

(** What [addPointSource] is given as a spectrum: a [str] or an object. *)
Definition SpecArg : Type := (string + Spectrum)%type.

Record Externals : Type := mkExternals {
  (** [pysynphot.Icat('ck04models', teff, metallicity, logg)] *)
  Icat : string -> Z -> Q -> Q -> result Spectrum;
  (** the order in which [lookuptable.keys()] enumerates the table *)
  keys_order : list string;
  (** [instrument.calcPSF(source=, outfile=None, save_intermediates=False,
      rebin=, **kwargs)], which reads [instrument.options] *)
  calcPSF : gmap string pyval -> SpecArg -> bool -> Kwargs -> result (list HDU);
  (** [instrument._getSynphotBandpass()] *)
  getSynphotBandpass : gmap string pyval -> result Bandpass;
  (** [pysynphot.Observation(spectrum, bp).effstim('Jy')] *)
  effstim : SpecArg -> Bandpass -> result R;
  (** [a *= k], [a += b] and [a.sum()] on pixel arrays *)
  img_imul : Image -> R -> Image;
  img_iadd : Image -> Image -> result Image;
  img_sum : Image -> R;
  (** [webbpsf.rebin_array(a, rc=(r, c))] *)
  rebin_array : Image -> pyval -> pyval -> result Image;
  (** ['%.nf' % x] and ['%.ng' % x] *)
  fmt_f : nat -> R -> string;
  fmt_g : nat -> R -> string
}.

(** *** The resolver *)

Inductive resolved : Type :=
| SptypeList (l : list string)
| SpectrumObject (s : Spectrum).

Definition specFromSpectralType (W : Externals) (sptype : string)
    (return_list : bool) : result resolved :=
  if return_list then
    do sptype_list <- list_sort_key sort_sptype (keys_order W);
    Ok (SptypeList sptype_list)
  else
    match dict_get String.eqb lookuptable sptype with
    | None =>
      Raise (LookupError ("Lookup table does not include spectral type " ++ sptype))
    | Some (teff, metallicity, logg) =>
      do sp <- Icat W "ck04models" teff metallicity logg;
      Ok (SpectrumObject sp)
    end.

(** *** The scene *)

Record Source : Type := mkSource {
  spectrum : SpecArg;
  separation : R;
  PA : R;
  normalization : pyval;
  name : string
}.

Record TargetScene : Type := mkScene { sources : list Source }.

Definition init : TargetScene := mkScene [].

(** The scene after the call, and [None] or the exception raised. *)
Definition addPointSource (W : Externals) (sptype_or_spectrum : SpecArg)
    (name : string) (separation PA : R) (normalization : pyval)
    (self : TargetScene) : TargetScene * result unit :=
  let resolved :=
    match sptype_or_spectrum with
    | inl s => do _ <- specFromSpectralType W s false; Ok tt
    | inr _ => Ok tt
    end in
  match resolved with
  | Raise e => (self, Raise e)
  | Ok _ =>
    (mkScene (sources self ++
              [mkSource sptype_or_spectrum separation PA normalization name])%list,
     Ok tt)
  end.

(** *** The environment of [calcImage] *)

Record Env : Type := mkEnv {
  options : gmap string pyval;
  files : gmap string (list HDU)
}.

Definition set_option (key : string) (v : pyval) : M Env unit :=
  fun s => (mkEnv (<[key := v]> (options s)) (files s), Ok tt).
Definition get_options : M Env (gmap string pyval) :=
  fun s => (s, Ok (options s)).

(** [hdulist.writeto(outfile, clobber=clobber)] *)
Definition writeto (outfile : string) (hdus : list HDU) (clobber : bool) : M Env unit :=
  fun s =>
    match files s !! outfile, clobber with
    | Some _, false => (s, Raise (IOError ("File exists: " ++ outfile)))
    | _, _ => (mkEnv (options s) (<[outfile := hdus]> (files s)), Ok tt)
    end.

(** [hdus[0]] and an update of [hdus[0]] in place. *)
Definition hdu0 (hdus : list HDU) : result HDU :=
  match hdus with
  | [] => Raise (IndexError "list index out of range")
  | p :: _ => Ok p
  end.

Definition on_primary (f : HDU -> HDU) (hdus : list HDU) : result (list HDU) :=
  match hdus with
  | [] => Raise (IndexError "list index out of range")
  | p :: rest => Ok (f p :: rest)
  end.

Definition on_header (f : Header -> Header) (h : HDU) : HDU :=
  mkHDU (f (header h)) (data h).

(** [hdus.pop()] *)
Definition pop (hdus : list HDU) : result (list HDU) :=
  match hdus with
  | [] => Raise (IndexError "pop from empty list")
  | _ => Ok (removelast hdus)
  end.


(** *** The compositor *)

Section CalcImage.

Variable W : Externals.
Variables (noise rebin clobber : bool) (outfile : option string).
Variables (image_PA : R) (offset_r offset_PA : option R) (kwargs : Kwargs).

(** Lines 121-136: the offset written into [instrument.options]. *)
Definition resolve_offset (obj : Source) : result (R * R) :=
  match offset_r with
  | None => Ok (separation obj, (PA obj - image_PA)%R)
  | Some offset_r =>
    let obj_x := (separation obj * cos (PA obj * PI / 180))%R in
    let obj_y := (separation obj * sin (PA obj * PI / 180))%R in
    match offset_PA with
    | None => Raise (TypeError "unsupported operand type(s) for *: 'NoneType' and 'float'")
    | Some offset_PA =>
      let offset_x := (offset_r * cos (offset_PA * PI / 180))%R in
      let offset_y := (offset_r * sin (offset_PA * PI / 180))%R in
      let src_x := (obj_x + offset_x)%R in
      let src_y := (obj_y + offset_y)%R in
      let src_r := sqrt (src_x ^ 2 + src_y ^ 2) in
      let src_pa := (arctan2 src_y src_x * 180 / PI)%R in
      Ok (src_r, (src_pa - image_PA)%R)
    end
  end.

(** The local variables that live across iterations of the loop; [None]
    is an unbound [effstim_Jy], respectively [sum_image = None]. *)
Record Locals : Type := mkLocals {
  sum_image : option (list HDU);
  effstim_Jy : option R
}.

(** ['%...' % instrument.options[key]] *)
Definition fmt_option (fmt : R -> string) (key : string)
    (opts : gmap string pyval) : result string :=
  match opts !! key with
  | None => Raise (KeyError key)
  | Some v =>
    match as_number v with
    | Some x => Ok (fmt x)
    | None => Raise (TypeError "float argument required")
    end
  end.

(** Lines 146-157: the flux ratio. *)
Definition normalize (obj : Source) (opts : gmap string pyval)
    (src_psf : list HDU) (loc : Locals) : result (list HDU * option R) :=
  match normalization obj with
  | PyNone =>
    do bp <- getSynphotBandpass W opts;
    do e <- effstim W (spectrum obj) bp;
    do psf <- on_primary (fun p => mkHDU (header p) (img_imul W (data p) e)) src_psf;
    Ok (psf, Some e)
  | n =>
    match as_number n with
    | Some k =>
      do psf <- on_primary (fun p => mkHDU (header p) (img_imul W (data p) k)) src_psf;
      Ok (psf, effstim_Jy loc)
    | None => Raise (TypeError "'NotImplementedType' object is not callable")
    end
  end.

(** Lines 160-173: the first PSF becomes the composite, later ones are
    added to it. *)
Definition accumulate (src_psf : list HDU) (loc : Locals) : result (list HDU) :=
  match sum_image loc with
  | None =>
    do s <- on_primary (on_header (add_history
              "obssim : Creating an image simulation with multiple PSFs")) src_psf;
    do s <- on_primary (on_header (header_update "IMAGE_PA" (PyFloat image_PA)
              (Some "PA of scene in simulated image"))) s;
    do s <- on_primary (on_header (header_update "OFFSET_R"
              (match offset_r with None => PyInt 0 | Some r => PyFloat r end)
              (Some "[arcsec] Offset of target center from FOV center"))) s;
    do s <- on_primary (on_header (header_update "OFFSETPA"
              (match offset_PA with None => PyInt 0 | Some a => PyFloat a end)
              (Some "[deg] Position angle of target offset from FOV center"))) s;
    match offset_r with
    | None =>
      on_primary (on_header (add_history
        "Image is centered on target (perfect acquisition)")) s
    | Some r =>
      match offset_PA with
      | None => Raise (TypeError "float argument required")
      | Some a =>
        on_primary (on_header (add_history
          ("Image is offset " ++ fmt_f W 2 r ++ " arcsec at PA=" ++ fmt_f W 1 a
           ++ " from target"))) s
      end
    end
  | Some s =>
    do p <- hdu0 s;
    do q <- hdu0 src_psf;
    do d <- img_iadd W (data p) (data q);
    on_primary (fun p => mkHDU (header p) d) s
  end.

(** Lines 175-178: the provenance of one source. *)
Definition provenance (obj : Source) (opts : gmap string pyval)
    (src_psf : list HDU) (effstim_Jy : option R) (s : list HDU)
    : result (list HDU) :=
  do s <- on_primary (on_header (add_history
            ("Added source " ++ name obj ++ " at r=" ++ fmt_f W 3 (separation obj)
             ++ ", theta=" ++ fmt_f W 2 (PA obj)))) s;
  match effstim_Jy with
  | None => Raise (UnboundLocalError "effstim_Jy")
  | Some e =>
    do s <- on_primary (on_header (add_history
              ("                with effstim = " ++ fmt_g W 3 e ++ " Jy"))) s;
    do q <- hdu0 src_psf;
    do s <- on_primary (on_header (add_history
              ("                counts in image: " ++ fmt_g W 3 (img_sum W (data q))))) s;
    do r <- fmt_option (fmt_g W 3) "source_offset_r" opts;
    do t <- fmt_option (fmt_f W 1) "source_offset_theta" opts;
    on_primary (on_header (add_history
      ("                pos in image: " ++ r ++ "'' at " ++ t ++ " deg"))) s
  end.

(** One iteration of [for obj in self.sources]. *)
Definition loop_body (obj : Source) (loc : Locals) : M Env Locals :=
  do! off <- lift (resolve_offset obj);
  do! _ <- set_option "source_offset_r" (PyFloat (fst off));
  do! _ <- set_option "source_offset_theta" (PyFloat (snd off));
  do! opts <- get_options;
  do! src_psf <- lift (calcPSF W opts (spectrum obj) rebin kwargs);
  do! scaled <- lift (normalize obj opts src_psf loc);
  do! s <- lift (accumulate (fst scaled) loc);
  do! s <- lift (provenance obj opts (fst scaled) (snd scaled) s);
  ret (mkLocals (Some s) (snd scaled)).

Fixpoint loop (objs : list Source) (loc : Locals) : M Env Locals :=
  match objs with
  | [] => ret loc
  | obj :: objs' => do! loc' <- loop_body obj loc; loop objs' loc'
  end.

(** Lines 188-200: the detector-sampled extension. *)
Definition rebin_step (sum_image : list HDU) : result (list HDU) :=
  if rebin then
    do p <- hdu0 sum_image;
    do det_samp <- header_get "DET_SAMP" (header p);
    if py_gt_one det_samp then
      do sum_image <- pop sum_image;
      do rebinned_sum_image <- hdu0 sum_image;
      do detector_oversample <- header_get "DET_SAMP" (header rebinned_sum_image);
      do d <- rebin_array W (data rebinned_sum_image)
                detector_oversample detector_oversample;
      let h := header_update "OVERSAMP" (PyInt 1)
                 (Some "These data are rebinned to detector pixels")
                 (header rebinned_sum_image) in
      let h := header_update "CALCSAMP" detector_oversample
                 (Some "This much oversampling used in calculation") h in
      let h := header_update "EXTNAME" (PyStr "DET_SAMP") None h in
      do pixelscl <- header_get "PIXELSCL" h;
      do scaled <- py_mul pixelscl detector_oversample;
      let h := header_update "PIXELSCL" scaled None h in
      Ok (sum_image ++ [mkHDU h d])%list
    else Ok sum_image
  else Ok sum_image.

(** Lines 204-208. *)
Definition save (sum_image : list HDU) : M Env (list HDU) :=
  match outfile with
  | None => ret sum_image
  | Some path =>
    do! s <- lift (on_primary (on_header (header_update "FILENAME"
           (PyStr (basename path)) (Some "Name of this file"))) sum_image);
    do! _ <- writeto path s clobber;
    ret s
  end.

Definition calcImage (self : TargetScene) : M Env (list HDU) :=
  do! loc <- loop (sources self) (mkLocals None None);
  if noise then raise (TypeError "'NotImplementedType' object is not callable")
  else
    match sum_image loc with
    | None => raise (TypeError "'NoneType' object has no attribute '__getitem__'")
    | Some s =>
      do! s <- lift (on_primary (on_header (header_update "NSOURCES"
             (PyInt (Z.of_nat (length (sources self))))
             (Some "Number of point sources in sim"))) s);
      do! s <- lift (rebin_step s);
      save s
    end.

End CalcImage.

End Obssim.

Arguments HDU : clear implicits.
Arguments Externals : clear implicits.
Arguments Source : clear implicits.
Arguments TargetScene : clear implicits.
Arguments Env : clear implicits.
Arguments Locals : clear implicits.

(** ** A small concrete world

    A stand-in simulator on which the functions above can be run: pixel
    arrays are lists of rows, every PSF is a 2x2 oversampled image with its
    detector-sampled extension, and every source has an in-band flux of 2 Jy. *)

Module Demo.

Definition image : Type := list (list R).

Definition imul (a : image) (k : R) : image := map (map (fun p => (p * k)%R)) a.

Definition same_shape (a b : image) : bool :=
  (length a =? length b)%nat &&
  forallb (fun rr => (length (fst rr) =? length (snd rr))%nat) (combine a b).

Definition iadd (a b : image) : result image :=
  if same_shape a b
  then Ok (map (fun rr => map (fun pq => (fst pq + snd pq)%R) (combine (fst rr) (snd rr)))
               (combine a b))
  else Raise (ValueError "operands could not be broadcast together").

Definition isum (a : image) : R :=
  fold_right (fun row acc => (fold_right Rplus 0%R row + acc)%R) 0%R a.

(** Consecutive blocks of [n] elements; an incomplete last block is dropped. *)
Fixpoint chunks {A} (fuel n : nat) (l : list A) : list (list A) :=
  match fuel with
  | O => []
  | S fuel' =>
    if (length l <? n)%nat then []
    else firstn n l :: chunks fuel' n (skipn n l)
  end.

Definition add_rows (a b : list R) : list R :=
  map (fun pq => (fst pq + snd pq)%R) (combine a b).

(** Modelled from the spec: [webbpsf.rebin_array] is not part of
    [lib/obssim.py]; the specification describes it as block-averaging the
    oversampled data down to detector pixel scale. Each [n] by [n] block of
    the input becomes one pixel holding the mean of the block. *)
Definition block_average (n : nat) (a : image) : image :=
  map (fun band =>
         let sums := map (fun row => map (fold_right Rplus 0%R)
                                         (chunks (length row) n row)) band in
         match sums with
         | [] => []
         | s :: ss => map (fun t => (t / (INR n * INR n))%R) (fold_left add_rows ss s)
         end)
      (chunks (length a) n a).

Definition rebin (a : image) (r c : pyval) : result image :=
  match as_int r with
  | Some n => if (0 <? n)%Z then Ok (block_average (Z.to_nat n) a)
              else Raise (ValueError "rebin factor must be positive")
  | None => Raise (TypeError "rebin factor must be an integer")
  end.

Definition psf_header (extname : string) (samp : Z) (scale : R) : Header :=
  mkHeader (<["EXTNAME" := (PyStr extname, "")]>
            (<["DET_SAMP" := (PyInt 2, "Oversampling factor for MFT to detector plane")]>
            (<["OVERSAMP" := (PyInt samp, "")]>
            (<["PIXELSCL" := (PyFloat scale, "Pixel scale in arcsec/pixel")]> ∅))))
           ["Calculated PSF"].

Definition unit_psf : list (HDU image) :=
  [ mkHDU (psf_header "OVERSAMP" 2 1%R) [[1; 3]; [5; 7]]%R;
    mkHDU (psf_header "DET_SAMP" 1 2%R) [[4]]%R ].

Definition world : Externals (Z * Q * Q) unit image unit :=
  {| Icat := fun _ teff metallicity logg => Ok (teff, metallicity, logg);
     keys_order := table_keys;
     calcPSF := fun _ _ _ _ => Ok unit_psf;
     getSynphotBandpass := fun _ => Ok tt;
     effstim := fun _ _ => Ok 2%R;
     img_imul := imul;
     img_iadd := iadd;
     img_sum := isum;
     rebin_array := rebin;
     fmt_f := fun _ _ => "#.#";
     fmt_g := fun _ _ => "#.#" |}.

Definition source (sp name : string) (separation PA : R) (normalization : pyval)
    : Source (Z * Q * Q) :=
  mkSource (inl sp) separation PA normalization name.

(** The scene of [test_obssim]. *)
Definition test_scene : TargetScene (Z * Q * Q) :=
  mkScene [ source "G0V" "G0V star" (1 / 10) 0 (PyFloat 1);
            source "K0V" "K0V star" 1 45 (PyFloat (4 / 10));
            source "M0V" "M0V star" (15 / 10) 245 (PyFloat (3 / 10)) ].

(** A scene whose sources all carry their flux in the spectrum. *)
Definition implicit_scene : TargetScene (Z * Q * Q) :=
  mkScene [ source "G0V" "primary" 0 0 PyNone;
            source "M0V" "companion" 1 45 PyNone ].

(** A primary with implicit flux and a companion scaled by a number. *)
Definition mixed_scene : TargetScene (Z * Q * Q) :=
  mkScene [ source "G0V" "primary" 0 0 PyNone;
            source "M0V" "companion" 1 45 (PyFloat (4 / 10)) ].

Definition env0 : Env image := mkEnv ∅ ∅.

End Demo.


(** ** Auxiliary notions for the statements *)

(** Orders on key-decorated entries, as [list.sort] sees them. *)
Definition key_lt {A} (a b : Q * A) : Prop := (fst a < fst b)%Q.
Definition key_le {A} (a b : Q * A) : Prop := (fst a <= fst b)%Q.

(** The key of a table entry, as [sort_sptype] computes it. *)
Definition keyed (s : string) : Q * string :=
  (match sort_sptype s with Ok q => q | Raise _ => 0%Q end, s).

Definition has_key (s : string) : bool :=
  match sort_sptype s with Ok _ => true | Raise _ => false end.

(** The listing, written out. *)
Definition sorted_sptypes : list string :=
  [ "O3V"; "O5I"; "O5V"; "O6I"; "O6V"; "O8I"; "O8V"; "B0I"; "B0III";
    "B0V"; "B3V"; "B5I"; "B5III"; "B5V"; "B8V"; "A0I"; "A0V"; "A5I";
    "A5V"; "F0I"; "F0V"; "F5I"; "F5V"; "G0I"; "G0III"; "G0V"; "G5I";
    "G5III"; "G5V"; "K0I"; "K0III"; "K0V"; "K5I"; "K5III"; "K5V"; "M0I";
    "M0III"; "M0V"; "M2I"; "M2V"; "M5V" ].

(** One type sorts strictly before another by the ordinal of the
    specification. *)
Definition ordinal_lt (a b : string) : Prop :=
  match spec_ordinal a, spec_ordinal b with
  | Some x, Some y => (x < y)%Q
  | _, _ => False
  end.

(** [instrument.options] once the offset [off] of a source is written. *)
Definition offset_options (off : R * R) (opts : gmap string pyval) : gmap string pyval :=
  <["source_offset_theta" := PyFloat (snd off)]>
    (<["source_offset_r" := PyFloat (fst off)]> opts).

(** A history line of the form written at line 175. *)
Definition is_added_source (line : string) : bool := String.prefix "Added source" line.

Section Iteration.

Context {Spectrum Bandpass Image Kwargs : Type}.
Variable W : Externals Spectrum Bandpass Image Kwargs.
Variables (rebin : bool) (image_PA : R) (offset_r offset_PA : option R) (kwargs : Kwargs).

(** What one iteration computes once the options [opts] hold the offset of
    its source: lines 142-178. *)
Definition iteration (obj : Source Spectrum) (loc : Locals Image)
    (opts : gmap string pyval) : result (Locals Image) :=
  do src_psf <- calcPSF W opts (spectrum obj) rebin kwargs;
  do scaled <- normalize W obj opts src_psf loc;
  do s <- accumulate W image_PA offset_r offset_PA (fst scaled) loc;
  do s <- provenance W obj opts (fst scaled) (snd scaled) s;
  Ok (mkLocals (Some s) (snd scaled)).

(** The history line that records the source [obj]. *)
Definition added_source_line (obj : Source Spectrum) : string :=
  "Added source " ++ name obj ++ " at r=" ++ fmt_f W 3 (separation obj)
  ++ ", theta=" ++ fmt_f W 2 (PA obj).

(** The simulator does not itself write history lines that begin with
    "Added source" into the primary header of a PSF. *)
Definition simulator_history_clean : Prop :=
  forall opts sp rb kw p rest,
    calcPSF W opts sp rb kw = Ok (p :: rest) ->
    List.filter is_added_source (history (header p)) = [].

End Iteration.

(** The "Added source" lines in the primary header of an accumulator. *)
Definition added_lines {Image} (s : option (list (HDU Image))) : list string :=
  match s with
  | Some (p :: _) => List.filter is_added_source (history (header p))
  | _ => []
  end.

(** ** The display helper

    The pylab figure is the list of what has been drawn on it, oldest
    first: [P.plot(xs, ys, fmt)] and [P.text(x, y, s)] append to it and
    [P.clf()] empties it. *)

Inductive artist : Type :=
| Plot (xs ys : list R) (fmt : string)
| Text (x y : R) (s : string).

Section Display.

Context {Spectrum : Type}.

(** Where [display] puts a source: position angles run from north (up)
    through east (left). *)
Definition plot_position (obj : Source Spectrum) : R * R :=
  ((separation obj * - sin (PA obj * PI / 180))%R,
   (separation obj * cos (PA obj * PI / 180))%R).

Definition display (self : TargetScene Spectrum) (figure : list artist) : list artist :=
  fold_left
    (fun figure obj =>
       let X := fst (plot_position obj) in
       let Y := snd (plot_position obj) in
       (figure ++ [Plot [X] [Y] "*"; Text X Y (name obj)])%list)
    (sources self) [].

End Display.

(** ** The demonstration of [test_obssim] *)

Section Driver.

Context {Spectrum Bandpass Image Kwargs : Type}.

(** What [webbpsf.NIRCam()] returns: the options it starts with, the check
    made when [inst.filter] is assigned, and the PSF calculation and the
    bandpass of the instrument once a filter is selected. *)
Record Instrument : Type := mkInstrument {
  inst_options : gmap string pyval;
  inst_set_filter : string -> result unit;
  inst_calcPSF : string -> gmap string pyval -> @SpecArg Spectrum -> bool -> Kwargs
                 -> result (list (HDU Image));
  inst_getSynphotBandpass : string -> gmap string pyval -> result Bandpass
}.

(** The externals seen by [calcImage] when it is handed the instrument with
    the filter [filt] selected. *)
Definition with_filter (W : Externals Spectrum Bandpass Image Kwargs)
    (inst : Instrument) (filt : string) : Externals Spectrum Bandpass Image Kwargs :=
  mkExternals (Icat W) (keys_order W) (inst_calcPSF inst filt)
    (inst_getSynphotBandpass inst filt) (effstim W) (img_imul W) (img_iadd W)
    (img_sum W) (rebin_array W) (fmt_f W) (fmt_g W).

Variable W : Externals Spectrum Bandpass Image Kwargs.
(** [webbpsf.NIRCam()], and the keyword arguments [fov_arcsec=5, nlambda=n]. *)
Variable NIRCam : result Instrument.
Variable test_kwargs : Z -> Kwargs.

(** Successive calls of [addPointSource] in a script: the first one that
    raises ends the script. *)
Definition then_add (sptype_or_spectrum : @SpecArg Spectrum) (name : string)
    (separation PA : R) (normalization : pyval)
    (s : result (TargetScene Spectrum)) : result (TargetScene Spectrum) :=
  do self <- s;
  match addPointSource W sptype_or_spectrum name separation PA normalization self with
  | (self', Ok _) => Ok self'
  | (_, Raise e) => Raise e
  end.

(** [os.path.exists(outname)] *)
Definition path_exists (outname : string) : M (Env Image) bool :=
  fun st => (st, Ok (match files st !! outname with Some _ => true | None => false end)).

(** The body of [for filt in [...]], for the filters that are left. *)
Fixpoint for_filters (inst : Instrument) (s : TargetScene Spectrum) (nlambda : Z)
    (clobber : bool) (filters : list string) : M (Env Image) unit :=
  match filters with
  | [] => ret tt
  | filt :: filters' =>
    do! _ <- lift (inst_set_filter inst filt);
    let outname := "test_scene_" ++ filt ++ ".fits" in
    do! there <- path_exists outname;
    do! _ <- (if negb there || clobber
              then do! _ <- calcImage (with_filter W inst filt) false true true
                              (Some outname) 0 None (Some 0%R) (test_kwargs nlambda) s;
                   ret tt
              else ret tt);
    for_filters inst s nlambda clobber filters'
  end.

(** [test_obssim(nlambda, clobber)], as a computation on the files. *)
Definition test_obssim (nlambda : Z) (clobber : bool)
    : M (gmap string (list (HDU Image))) unit :=
  fun fs =>
    let s := Ok init in
    let s := then_add (inl "G0V") "G0V star" (1 / 10) 0 (PyFloat 1) s in
    let s := then_add (inl "K0V") "K0V star" 1 45 (PyFloat (4 / 10)) s in
    let s := then_add (inl "M0V") "M0V star" (15 / 10) 245 (PyFloat (3 / 10)) s in
    match s with
    | Raise e => (fs, Raise e)
    | Ok s =>
      match NIRCam with
      | Raise e => (fs, Raise e)
      | Ok inst =>
        let run := for_filters inst s nlambda clobber ["F115W"; "F210M"; "F360M"]
                     (mkEnv (inst_options inst) fs) in
        (files (fst run), snd run)
      end
    end.

End Driver.

Arguments Instrument : clear implicits.

(** A stand-in instrument for the concrete world. *)
Module DemoInstrument.

Definition nircam : Instrument (Z * Q * Q) unit Demo.image unit :=
  mkInstrument (<["jitter" := PyNone]> ∅) (fun _ => Ok tt)
    (fun _ _ _ _ _ => Ok Demo.unit_psf) (fun _ _ => Ok tt).

(** A scene of one source, with its flux in the spectrum. *)
Definition single_scene : TargetScene (Z * Q * Q) :=
  mkScene [ Demo.source "G0V" "primary" 0 0 PyNone ].

End DemoInstrument.

(** ** The lines and cards that [calcImage] writes, for the statements *)

Section Annotations.

Context {Spectrum Bandpass Image Kwargs : Type}.
Variable W : Externals Spectrum Bandpass Image Kwargs.

(** The four history lines of one source (lines 175-178): its name and
    position, the flux [e] held by [effstim_Jy], the counts of its scaled
    PSF [d], and the formatted offset [r], [t] read from the options. *)
Definition provenance_lines (obj : Source Spectrum) (e : R) (d : Image)
    (r t : string) : list string :=
  [ added_source_line W obj;
    "                with effstim = " ++ fmt_g W 3 e ++ " Jy";
    "                counts in image: " ++ fmt_g W 3 (img_sum W d);
    "                pos in image: " ++ r ++ "'' at " ++ t ++ " deg" ].

(** The history line about the acquisition (lines 167-170). *)
Definition acquisition_note (offset_r offset_PA : option R) : option string :=
  match offset_r, offset_PA with
  | None, _ => Some "Image is centered on target (perfect acquisition)"
  | Some r, Some a =>
    Some ("Image is offset " ++ fmt_f W 2 r ++ " arcsec at PA=" ++ fmt_f W 1 a
          ++ " from target")
  | Some _, None => None
  end.

(** The cards of the composite once the first PSF became the accumulator
    (lines 163-165). *)
Definition scene_cards (image_PA : R) (offset_r offset_PA : option R)
    (h : Header) : Header :=
  header_update "OFFSETPA"
    (match offset_PA with None => PyInt 0 | Some a => PyFloat a end)
    (Some "[deg] Position angle of target offset from FOV center")
    (header_update "OFFSET_R"
       (match offset_r with None => PyInt 0 | Some r => PyFloat r end)
       (Some "[arcsec] Offset of target center from FOV center")
       (header_update "IMAGE_PA" (PyFloat image_PA)
          (Some "PA of scene in simulated image") h)).

End Annotations.

(** The header given to the detector-sampled extension (lines 196-199):
    the header [h] of the primary with the oversampling [d] and the pixel
    scale [scaled] written in. *)
Definition rebinned_header (d scaled : pyval) (h : Header) : Header :=
  header_update "PIXELSCL" scaled None
    (header_update "EXTNAME" (PyStr "DET_SAMP") None
       (header_update "CALCSAMP" d (Some "This much oversampling used in calculation")
          (header_update "OVERSAMP" (PyInt 1)
             (Some "These data are rebinned to detector pixels") h))).

(** More of the concrete world: a simulator that fails, an environment in
    which an output file is already there, and an accumulator in the middle
    of a loop. *)
Module DemoRun.

Definition broken_world : Externals (Z * Q * Q) unit Demo.image unit :=
  mkExternals (Icat Demo.world) (keys_order Demo.world)
    (fun _ _ _ _ => Raise (ExternalError "no such filter"))
    (getSynphotBandpass Demo.world) (effstim Demo.world) (img_imul Demo.world)
    (img_iadd Demo.world) (img_sum Demo.world) (rebin_array Demo.world)
    (fmt_f Demo.world) (fmt_g Demo.world).

Definition env_with_file : Env Demo.image :=
  mkEnv ∅ (<["scene.fits" := Demo.unit_psf]> ∅).

Definition companion : Source (Z * Q * Q) :=
  Demo.source "M0V" "companion" 1 45 (PyFloat (4 / 10)).

Definition implicit_companion : Source (Z * Q * Q) :=
  Demo.source "M0V" "companion" 1 45 PyNone.

Definition companion_options : gmap string pyval :=
  offset_options (1, 45 - 0)%R ∅.

(** The locals after a first source of flux 2 Jy. *)
Definition after_primary : Locals Demo.image :=
  mkLocals (Some Demo.unit_psf) (Some 2%R).

End DemoRun.

(** ** The pointing offset over binary64

    The values that lines 121-136 compute with are IEEE 754 binary64
    numbers, and the identities of the geometry over the reals are not
    those of the rounded operations.  Here the same lines are embedded once
    more, operation by operation and in the order in which Python evaluates
    them, over the binary64 values of the standard library: [*], [+], [-],
    [/] and [numpy.sqrt] are the correctly rounded operations (round to
    nearest, ties to even), [numpy.pi] and [180] are the doubles the
    interpreter holds, and [numpy.cos], [numpy.sin], [numpy.arctan2] and the
    power [x ** 2] are the functions of the C library, a record [Libm] of
    which nothing is known but what a statement assumes. *)

Module Binary64.

(** [numpy.float64], and a Python [float]. *)
Definition float : Type := SpecFloat.spec_float.

Definition prec : Z := 53.
Definition emax : Z := 1024.

Definition mul : float -> float -> float := SpecFloat.SFmul prec emax.
Definition add : float -> float -> float := SpecFloat.SFadd prec emax.
Definition sub : float -> float -> float := SpecFloat.SFsub prec emax.
Definition div : float -> float -> float := SpecFloat.SFdiv prec emax.
Definition sqrt : float -> float := SpecFloat.SFsqrt prec emax.

(** The double of an integer literal. *)
Definition of_Z (n : Z) : float := SpecFloat.binary_normalize prec emax n 0 false.

(** [0.0] *)
Definition zero : float := SpecFloat.S754_zero false.
Definition one : float := Eval cbv in of_Z 1.
Definition two : float := Eval cbv in of_Z 2.
Definition c180 : float := Eval cbv in of_Z 180.

(** [numpy.pi], the double [0x1.921fb54442d18p+1]. *)
Definition pi : float := SpecFloat.S754_finite false 7074237752028440 (-51).

(** Neither an infinity nor a NaN. *)
Definition is_finite (x : float) : bool :=
  match x with
  | SpecFloat.S754_zero _ | SpecFloat.S754_finite _ _ _ => true
  | SpecFloat.S754_infinity _ | SpecFloat.S754_nan => false
  end.

(** What numpy takes from the C library. *)
Record Libm : Type := mkLibm {
  cos : float -> float;
  sin : float -> float;
  arctan2 : float -> float -> float;
  pow : float -> float -> float
}.

(** The values at zero that Annex F of the C standard fixes:
    [cos(0) = 1], [sin(0) = 0], [pow(0, 2) = 0] and [atan2(0, 0) = 0]. *)
Definition values_at_zero (L : Libm) : Prop :=
  cos L zero = one /\ sin L zero = zero
  /\ pow L zero two = zero /\ arctan2 L zero zero = zero.

(** [a * numpy.pi/180] *)
Definition radians (a : float) : float := div (mul a pi) c180.

End Binary64.

(** Lines 121-136 over binary64, for a source [obj] with
    [obj['separation'] = separation] and [obj['PA'] = PA]. *)
Definition resolve_offset_b64 (L : Binary64.Libm) (image_PA : Binary64.float)
    (offset_r offset_PA : option Binary64.float)
    (separation PA : Binary64.float) : result (Binary64.float * Binary64.float) :=
  match offset_r with
  | None => Ok (separation, Binary64.sub PA image_PA)
  | Some offset_r =>
    let obj_x :=
      Binary64.mul separation
        (Binary64.cos L (Binary64.div (Binary64.mul PA Binary64.pi) Binary64.c180)) in
    let obj_y :=
      Binary64.mul separation
        (Binary64.sin L (Binary64.div (Binary64.mul PA Binary64.pi) Binary64.c180)) in
    match offset_PA with
    | None => Raise (TypeError "unsupported operand type(s) for *: 'NoneType' and 'float'")
    | Some offset_PA =>
      let offset_x :=
        Binary64.mul offset_r
          (Binary64.cos L
             (Binary64.div (Binary64.mul offset_PA Binary64.pi) Binary64.c180)) in
      let offset_y :=
        Binary64.mul offset_r
          (Binary64.sin L
             (Binary64.div (Binary64.mul offset_PA Binary64.pi) Binary64.c180)) in
      let src_x := Binary64.add obj_x offset_x in
      let src_y := Binary64.add obj_y offset_y in
      let src_r :=
        Binary64.sqrt (Binary64.add (Binary64.pow L src_x Binary64.two)
                                    (Binary64.pow L src_y Binary64.two)) in
      let src_pa :=
        Binary64.div (Binary64.mul (Binary64.arctan2 L src_y src_x) Binary64.c180)
                     Binary64.pi in
      Ok (src_r, Binary64.sub src_pa image_PA)
    end
  end.

(** A stand-in for the C library: the first terms of the series of the
    cosine and the sine and of the arc tangent of the quotient, computed in
    binary64.  It has the values at zero of the C library and is crude away
    from zero. *)
Module DemoLibm.

Definition cos (x : Binary64.float) : Binary64.float :=
  Binary64.sub Binary64.one (Binary64.div (Binary64.mul x x) Binary64.two).

Definition sin (x : Binary64.float) : Binary64.float :=
  Binary64.sub x
    (Binary64.div (Binary64.mul x (Binary64.mul x x)) (Binary64.of_Z 6)).

Definition arctan2 (y x : Binary64.float) : Binary64.float :=
  match y with
  | SpecFloat.S754_zero _ => y
  | _ => Binary64.div y x
  end.

Definition pow (x y : Binary64.float) : Binary64.float :=
  if SpecFloat.SFeqb y Binary64.two then Binary64.mul x x else SpecFloat.S754_nan.

Definition libm : Binary64.Libm := Binary64.mkLibm cos sin arctan2 pow.

(** [30.0] and [45.0] *)
Definition thirty : Binary64.float := Eval cbv in Binary64.of_Z 30.
Definition forty_five : Binary64.float := Eval cbv in Binary64.of_Z 45.

End DemoLibm.

(** * Properties *)


(** ** The listing mode of the resolver *)


Lemma Qltb_spec (a b : Q) : Qltb a b = true <-> (a < b)%Q.
Proof.
  unfold Qltb. rewrite negb_true_iff. split.
  - intros H. apply Qnot_le_lt. intros Hle. apply Qle_bool_iff in Hle. congruence.
  - intros H. destruct (Qle_bool b a) eqn:E; [|reflexivity].
    apply Qle_bool_iff in E. exfalso. exact (Qlt_not_le _ _ H E).
Qed.

Lemma insert_keyed_perm {A} (x : Q * A) l : Permutation (insert_keyed x l) (x :: l).
Proof.
  induction l as [|y l IH]; simpl; [reflexivity|].
  destruct (Qltb (fst y) (fst x)); [|reflexivity].
  rewrite IH. apply perm_swap.
Qed.

Lemma sort_keyed_perm {A} (l : list (Q * A)) : Permutation (sort_keyed l) l.
Proof.
  induction l as [|x l IH]; simpl; [reflexivity|].
  rewrite insert_keyed_perm. now constructor.
Qed.

Lemma insert_keyed_sorted {A} (x : Q * A) l :
  StronglySorted key_le l -> StronglySorted key_le (insert_keyed x l).
Proof.
  induction 1 as [|y l Hs IH Hy]; simpl.
  - repeat constructor.
  - destruct (Qltb (fst y) (fst x)) eqn:E.
    + constructor; [exact IH|].
      eapply Permutation_Forall.
      * symmetry. apply insert_keyed_perm.
      * constructor; [|exact Hy].
        apply Qltb_spec in E. unfold key_le. now apply Qlt_le_weak.
    + assert (Hxy : (fst x <= fst y)%Q).
      { apply Qnot_lt_le. intros Hlt. apply Qltb_spec in Hlt. congruence. }
      constructor; [now constructor|].
      constructor; [exact Hxy|].
      eapply Forall_impl; [exact Hy|].
      intros z Hz. unfold key_le in *. eapply Qle_trans; eassumption.
Qed.

Lemma sort_keyed_sorted {A} (l : list (Q * A)) : StronglySorted key_le (sort_keyed l).
Proof.
  induction l as [|x l IH]; simpl; [constructor|].
  now apply insert_keyed_sorted.
Qed.

(** A list sorted by key and a strictly sorted list with the same elements
    are the same list. *)
Lemma sorted_perm_unique {A} (l1 l2 : list (Q * A)) :
  StronglySorted key_le l1 -> StronglySorted key_lt l2 ->
  Permutation l1 l2 -> l1 = l2.
Proof.
  intros H1. revert l2.
  induction H1 as [|a l1 Hs IH Ha]; intros l2 H2 HP.
  - apply Permutation_nil in HP. now subst.
  - destruct l2 as [|b l2].
    { symmetry in HP. apply Permutation_nil in HP. discriminate. }
    apply StronglySorted_inv in H2. destruct H2 as [H2 Hb].
    assert (Hab : a = b).
    { assert (Ia : In a (b :: l2)) by (eapply Permutation_in; [exact HP|now left]).
      assert (Ib : In b (a :: l1))
        by (eapply Permutation_in; [symmetry; exact HP|now left]).
      destruct Ia as [->|Ia]; [reflexivity|].
      destruct Ib as [->|Ib]; [reflexivity|].
      rewrite List.Forall_forall in Ha, Hb.
      specialize (Ha _ Ib). specialize (Hb _ Ia).
      unfold key_le, key_lt in *. exfalso. exact (Qlt_not_le _ _ Hb Ha). }
    subst b. f_equal. apply IH; [exact H2|].
    eapply Permutation_cons_inv. exact HP.
Qed.

Lemma key_lt_trans {A} : Transitive (@key_lt A).
Proof. intros x y z. unfold key_lt. apply Qlt_trans. Qed.


Lemma map_snd_keyed (l : list string) : map snd (map keyed l) = l.
Proof. induction l as [|s l IH]; simpl; [reflexivity|]. now rewrite IH. Qed.

Lemma rmapM_keyed (l : list string) :
  Forall (fun s => has_key s = true) l ->
  rmapM (fun x => rbind (sort_sptype x) (fun k => Ok (k, x))) l = Ok (map keyed l).
Proof.
  induction 1 as [|s l Hs _ IH]; simpl; [reflexivity|].
  rewrite IH. unfold keyed, has_key in *.
  destruct (sort_sptype s); [reflexivity|discriminate].
Qed.


Lemma table_keys_have_keys : Forall (fun s => has_key s = true) table_keys.
Proof. apply List.Forall_forall. apply forallb_forall. vm_compute. reflexivity. Qed.

Lemma sorted_sptypes_keyed : sort_keyed (map keyed table_keys) = map keyed sorted_sptypes.
Proof. vm_compute. reflexivity. Qed.

Lemma sorted_sptypes_strict : StronglySorted key_lt (map keyed sorted_sptypes).
Proof.
  apply Sorted_StronglySorted; [apply key_lt_trans|].
  repeat (constructor; try reflexivity).
Qed.

Lemma sorted_sptypes_perm : Permutation sorted_sptypes table_keys.
Proof.
  assert (H : Permutation (map keyed sorted_sptypes) (map keyed table_keys)).
  { rewrite <- sorted_sptypes_keyed. apply sort_keyed_perm. }
  apply (Permutation_map snd) in H.
  now rewrite !map_snd_keyed in H.
Qed.

Lemma list_sort_key_table (l : list string) :
  Permutation l table_keys -> list_sort_key sort_sptype l = Ok sorted_sptypes.
Proof.
  intros HP. unfold list_sort_key.
  rewrite rmapM_keyed.
  2:{ eapply Permutation_Forall; [symmetry; exact HP|apply table_keys_have_keys]. }
  simpl. f_equal.
  replace (sort_keyed (map keyed l)) with (map keyed sorted_sptypes).
  { apply map_snd_keyed. }
  symmetry. apply sorted_perm_unique.
  - apply sort_keyed_sorted.
  - apply sorted_sptypes_strict.
  - rewrite sort_keyed_perm. rewrite HP. symmetry.
    apply Permutation_map. apply sorted_sptypes_perm.
Qed.

Lemma sort_sptype_is_spec_ordinal :
  Forall (fun k => option_map Ok (spec_ordinal k) = Some (sort_sptype k)) table_keys.
Proof. repeat (constructor; [reflexivity|]). constructor. Qed.

Lemma sorted_sptypes_by_ordinal : StronglySorted ordinal_lt sorted_sptypes.
Proof.
  apply Sorted_StronglySorted.
  - intros a b c. unfold ordinal_lt.
    destruct (spec_ordinal a), (spec_ordinal b), (spec_ordinal c);
      try tauto. apply Qlt_trans.
  - repeat (constructor; try reflexivity).
Qed.

Section ResolverProperties.

Context {Spectrum Bandpass Image Kwargs : Type}.
Variable W : Externals Spectrum Bandpass Image Kwargs.

(** C7. In listing mode the resolver returns every key of the table, sorted
    by the ordinal of the specification (class base 0, 10, ..., 60 for
    O, B, A, F, G, K, M, plus the digit, plus 0.1 for "I", 0.3 for "III" and
    0.5 for "V"), which is the key [sort_sptype] computes on every entry;
    "G0III" comes before "G0V", which comes before "G5V". The order in which
    the interpreter enumerates the dict does not matter. *)
Theorem listing_sorted_by_ordinal (sptype : string) :
  Permutation (keys_order W) table_keys ->
  specFromSpectralType W sptype true = Ok (SptypeList sorted_sptypes)
  /\ Permutation sorted_sptypes table_keys
  /\ Forall (fun k => option_map Ok (spec_ordinal k) = Some (sort_sptype k)) table_keys
  /\ StronglySorted ordinal_lt sorted_sptypes
  /\ exists l1 l2 l3 l4,
       sorted_sptypes = (l1 ++ "G0III" :: l2 ++ "G0V" :: l3 ++ "G5V" :: l4)%list.
Proof.
  intros HP. repeat split.
  - unfold specFromSpectralType. now rewrite (list_sort_key_table _ HP).
  - apply sorted_sptypes_perm.
  - apply sort_sptype_is_spec_ordinal.
  - apply sorted_sptypes_by_ordinal.
  - exists (firstn 24 sorted_sptypes), [], ["G5I"; "G5III"], (skipn 29 sorted_sptypes).
    reflexivity.
Qed.

(** Reading a dict at a string that is not one of its keys. *)
Lemma dict_get_not_key {V} (d : list (string * V)) (s : string) :
  ~ In s (map fst d) -> dict_get String.eqb d s = None.
Proof.
  induction d as [|[k v] d IH]; simpl; [reflexivity|].
  intros Hn. destruct (String.eqb_spec k s) as [->|_].
  - exfalso. apply Hn. now left.
  - apply IH. intros Hin. apply Hn. now right.
Qed.

(** C3. A string that is not a key of the table makes the resolver raise a
    [LookupError] whose message ends with that string, and a call of
    [addPointSource] with it raises the same error and leaves the scene,
    hence its list of sources, as it was. *)
Theorem unknown_sptype_lookup_error (s : string) :
  ~ In s table_keys ->
  let msg := "Lookup table does not include spectral type " ++ s in
  specFromSpectralType W s false = Raise (LookupError msg)
  /\ (exists pre post, msg = pre ++ s ++ post)
  /\ forall name separation PA normalization (self : TargetScene Spectrum),
       addPointSource W (inl s) name separation PA normalization self
       = (self, Raise (LookupError msg)).
Proof.
  intros Hs msg.
  assert (Hr : specFromSpectralType W s false = Raise (LookupError msg)).
  { unfold specFromSpectralType. now rewrite (dict_get_not_key _ _ Hs). }
  split; [exact Hr|]. split.
  - exists "Lookup table does not include spectral type ", "".
    unfold msg. f_equal. clear. induction s as [|c s' IH]; [reflexivity|].
    change (String c s' = String c (s' ++ "")). now f_equal.
  - intros. unfold addPointSource. now rewrite Hr.
Qed.

End ResolverProperties.

(** ** The compositor *)

Lemma bind_ok {S A B} (c : M S A) (k : A -> M S B) s s' b :
  bind c k s = (s', Ok b) ->
  exists s1 a, c s = (s1, Ok a) /\ k a s1 = (s', Ok b).
Proof.
  unfold bind. destruct (c s) as [s1 [a|e]]; [eauto|discriminate].
Qed.

Lemma offset_options_twice off1 off2 opts :
  offset_options off2 (offset_options off1 opts) = offset_options off2 opts.
Proof.
  unfold offset_options. apply map_eq. intros k.
  rewrite !lookup_insert. repeat case_decide; reflexivity.
Qed.

Section CompositorProperties.

Context {Spectrum Bandpass Image Kwargs : Type}.
Variable W : Externals Spectrum Bandpass Image Kwargs.
Variables (noise rebin clobber : bool) (outfile : option string).
Variables (image_PA : R) (offset_r offset_PA : option R) (kwargs : Kwargs).

Local Abbreviation body := (loop_body W rebin image_PA offset_r offset_PA kwargs).
Local Abbreviation run := (loop W rebin image_PA offset_r offset_PA kwargs).
Local Abbreviation iter := (iteration W rebin image_PA offset_r offset_PA kwargs).
Local Abbreviation call :=
  (calcImage W noise rebin clobber outfile image_PA offset_r offset_PA kwargs).
Local Abbreviation resolve := (@resolve_offset Spectrum image_PA offset_r offset_PA).

(** One iteration, with its effect on the environment made explicit. *)
Lemma loop_body_unfold obj loc st :
  body obj loc st =
  match resolve obj with
  | Raise e => (st, Raise e)
  | Ok off =>
    let opts := offset_options off (options st) in
    (mkEnv opts (files st), iter obj loc opts)
  end.
Proof.
  unfold loop_body, iteration, bind, lift, set_option,
    get_options, ret, offset_options.
  destruct (resolve obj) as [off|e]; simpl; [|reflexivity].
  destruct (calcPSF W _ _ _ _) as [psf|e]; simpl; [|reflexivity].
  destruct (normalize W _ _ _ _) as [scaled|e]; simpl; [|reflexivity].
  destruct (accumulate W _ _ _ _ _) as [s|e]; simpl; [|reflexivity].
  destruct (provenance W _ _ _ _ _) as [s'|e]; reflexivity.
Qed.

(** One iteration writes the resolved offset of its source into the options,
    whether it finishes or raises, and touches no file. *)
Lemma loop_body_env obj loc st st' r :
  body obj loc st = (st', r) ->
  files st' = files st /\
  match resolve obj with
  | Ok off => options st' = offset_options off (options st)
  | Raise e => st' = st /\ r = Raise e
  end.
Proof.
  rewrite loop_body_unfold.
  destruct (resolve obj) as [off|e]; simpl; intros [= <- <-]; auto.
Qed.

Lemma loop_files objs : forall loc st st' r,
  run objs loc st = (st', r) -> files st' = files st.
Proof.
  induction objs as [|obj objs IH]; simpl; intros loc st st' r.
  - unfold ret. now intros [= <- _].
  - unfold bind. destruct (body obj loc st) as [st1 [loc1|e]] eqn:Hb.
    + intros Hl. apply IH in Hl. apply loop_body_env in Hb. destruct Hb as [Hf _].
      congruence.
    + intros [= <- _]. now apply loop_body_env in Hb.
Qed.

(** After a loop over at least one source that ran to its end, the options
    hold the offset of the last source on top of what they held before. *)
Lemma loop_options objs : forall loc st st' loc',
  run objs loc st = (st', Ok loc') ->
  (objs = [] /\ st' = st /\ loc' = loc) \/
  exists before last off,
    objs = (before ++ [last])%list /\ resolve last = Ok off /\
    options st' = offset_options off (options st).
Proof.
  induction objs as [|obj objs IH]; simpl; intros loc st st' loc' H.
  - left. unfold ret in H. injection H as <- <-. auto.
  - right. apply bind_ok in H. destruct H as (st1 & loc1 & Hb & Hl).
    apply loop_body_env in Hb. destruct Hb as [_ Hb].
    destruct (resolve obj) as [off|e] eqn:Hoff; [|destruct Hb; discriminate].
    apply IH in Hl.
    destruct Hl as [(-> & -> & ->)|(before & last & off' & -> & Hl & Ho)].
    + exists [], obj, off. auto.
    + exists (obj :: before), last, off'. repeat split; [assumption|].
      rewrite Ho, Hb. apply offset_options_twice.
Qed.

Lemma save_options (s : list (HDU Image)) (st st' : Env Image) r :
  save clobber outfile s st = (st', r) -> options st' = options st.
Proof.
  unfold save. destruct outfile as [path|].
  - unfold bind, lift, writeto, ret.
    destruct (on_primary _ s) as [s1|e]; [|now intros [= <- _]].
    destruct (files st !! path), clobber; now intros [= <- _].
  - unfold ret. now intros [= <- _].
Qed.

(** What a call that returns went through. *)
Lemma calcImage_ok self st st' img :
  call self st = (st', Ok img) ->
  noise = false /\
  exists st1 loc s0 s1 s2,
    run (sources self) (mkLocals None None) st = (st1, Ok loc) /\
    sum_image loc = Some s0 /\
    on_primary (on_header (header_update "NSOURCES"
      (PyInt (Z.of_nat (length (sources self))))
      (Some "Number of point sources in sim"))) s0 = Ok s1 /\
    rebin_step W rebin s1 = Ok s2 /\
    save clobber outfile s2 st1 = (st', Ok img).
Proof.
  unfold calcImage. intros H.
  apply bind_ok in H. destruct H as (st1 & loc & Hl & H).
  destruct noise; [discriminate|]. split; [reflexivity|].
  destruct (sum_image loc) as [s0|] eqn:Hs; [|discriminate].
  apply bind_ok in H. destruct H as (st2 & s1 & H1 & H).
  apply bind_ok in H. destruct H as (st3 & s2 & H2 & H).
  unfold lift in H1, H2. injection H1 as <- H1. injection H2 as <- H2.
  exists st1, loc, s0, s1, s2. auto.
Qed.

(** C10. [calcImage] writes into the options of the instrument it is given:
    every iteration overwrites 'source_offset_r' and 'source_offset_theta'
    with the offset resolved for its source, and when [calcImage] returns
    the options are those of the caller with these two keys set to the
    offset of the last source; nothing restores the earlier values. *)
Theorem calcImage_leaves_last_offset :
  (forall obj loc st st' r off,
     loop_body W rebin image_PA offset_r offset_PA kwargs obj loc st = (st', r) ->
     resolve_offset image_PA offset_r offset_PA obj = Ok off ->
     options st' = <["source_offset_theta" := PyFloat (snd off)]>
                     (<["source_offset_r" := PyFloat (fst off)]> (options st)))
  /\
  (forall self st st' img,
     calcImage W noise rebin clobber outfile image_PA offset_r offset_PA kwargs
       self st = (st', Ok img) ->
     exists before last off,
       sources self = (before ++ [last])%list /\
       resolve_offset image_PA offset_r offset_PA last = Ok off /\
       options st' = <["source_offset_theta" := PyFloat (snd off)]>
                       (<["source_offset_r" := PyFloat (fst off)]> (options st))).
Proof.
  split.
  - intros obj loc st st' r off Hb Hoff. apply loop_body_env in Hb.
    rewrite Hoff in Hb. apply Hb.
  - intros self st st' img H. apply calcImage_ok in H.
    destruct H as (_ & st1 & loc & s0 & s1 & s2 & Hl & Hs & _ & _ & Hsave).
    apply save_options in Hsave. apply loop_options in Hl.
    destruct Hl as [(_ & _ & ->)|(before & last & off & Hobjs & Hoff & Ho)].
    + discriminate.
    + exists before, last, off. repeat split; [assumption..|].
      rewrite Hsave, Ho. reflexivity.
Qed.

Lemma calcImage_nil (st : Env Image) :
  call (mkScene []) st =
    (st, Raise (TypeError
       (if noise then "'NotImplementedType' object is not callable"
        else "'NoneType' object has no attribute '__getitem__'"))).
Proof.
  unfold calcImage, bind. simpl. unfold ret.
  destruct noise; reflexivity.
Qed.

(** C9. On a scene without sources [calcImage] never returns a composite:
    the loop leaves the accumulator at [None], and the call raises, at the
    update of the header of the accumulator unless noise was requested. *)
Theorem calcImage_empty_scene (st : Env Image) :
  loop W rebin image_PA offset_r offset_PA kwargs [] (mkLocals None None) st
    = (st, Ok (mkLocals None None))
  /\ calcImage W noise rebin clobber outfile image_PA offset_r offset_PA kwargs
       (mkScene []) st
     = (st, Raise (TypeError
          (if noise then "'NotImplementedType' object is not callable"
           else "'NoneType' object has no attribute '__getitem__'")))
  /\ forall st' img,
       calcImage W noise rebin clobber outfile image_PA offset_r offset_PA kwargs
         (mkScene []) st <> (st', Ok img).
Proof.
  split; [reflexivity|]. split; [apply calcImage_nil|].
  intros st' img. rewrite calcImage_nil. discriminate.
Qed.

(** A first iteration on a source with a numeric normalization reaches the
    line that formats [effstim_Jy] while that variable is still unbound. *)
Lemma iteration_first_scalar obj opts p psf k off :
  resolve obj = Ok off ->
  calcPSF W opts (spectrum obj) rebin kwargs = Ok (p :: psf) ->
  as_number (normalization obj) = Some k ->
  iter obj (mkLocals None None) opts = Raise (UnboundLocalError "effstim_Jy").
Proof.
  intros Hoff Hpsf Hk. unfold iteration. rewrite Hpsf. simpl.
  unfold resolve_offset in Hoff.
  unfold normalize. destruct (normalization obj); try discriminate Hk;
    simpl; unfold accumulate; simpl;
    destruct offset_r, offset_PA; try discriminate Hoff; reflexivity.
Qed.

(** Whatever the externals do, an iteration on a source with a numeric
    normalization does not finish while [effstim_Jy] is unbound. *)
Lemma iteration_scalar_unbound obj loc opts k :
  as_number (normalization obj) = Some k -> effstim_Jy loc = None ->
  exists e, iter obj loc opts = Raise e.
Proof.
  intros Hk Hu. unfold iteration.
  destruct (calcPSF W opts (spectrum obj) rebin kwargs) as [psf|e]; [|eauto].
  simpl.
  assert (Hn : forall scaled, normalize W obj opts psf loc = Ok scaled ->
                              snd scaled = None).
  { unfold normalize. destruct (normalization obj); try discriminate Hk; simpl;
      destruct (on_primary _ psf); simpl; intros scaled [= <-]; exact Hu. }
  destruct (normalize W obj opts psf loc) as [scaled|e]; [|eauto].
  specialize (Hn _ eq_refl). simpl.
  destruct (accumulate W image_PA offset_r offset_PA (fst scaled) loc) as [s|e];
    [|eauto].
  simpl. unfold provenance. rewrite Hn.
  destruct (on_primary _ s); simpl; eauto.
Qed.

(** A source with a numeric normalization leaves [effstim_Jy] as the earlier
    iterations left it: the flux its provenance reports is not its own. *)
Lemma normalize_scalar_keeps_flux obj opts psf loc scaled k :
  as_number (normalization obj) = Some k ->
  normalize W obj opts psf loc = Ok scaled ->
  snd scaled = effstim_Jy loc.
Proof.
  intros Hk. unfold normalize.
  destruct (normalization obj); try discriminate Hk; simpl;
    destruct (on_primary _ psf); simpl; intros [= <-]; reflexivity.
Qed.

Lemma loop_raise_first obj objs loc st st1 e :
  body obj loc st = (st1, Raise e) ->
  run (obj :: objs) loc st = (st1, Raise e).
Proof. intros H. simpl. unfold bind. now rewrite H. Qed.

Lemma calcImage_raise_in_loop self st st1 e :
  run (sources self) (mkLocals None None) st = (st1, Raise e) ->
  call self st = (st1, Raise e).
Proof. intros H. unfold calcImage, bind. now rewrite H. Qed.

(** C1. A scene whose first source carries an explicit scalar normalization
    does not get its provenance recorded: with a simulator that returns a
    PSF, [calcImage] raises [UnboundLocalError] for [effstim_Jy] at the line
    that records the flux, after writing the offset into the options. *)
Theorem scalar_first_source_raises_unbound obj rest (st : Env Image) off p psf k :
  resolve_offset image_PA offset_r offset_PA obj = Ok off ->
  calcPSF W (offset_options off (options st)) (spectrum obj) rebin kwargs
    = Ok (p :: psf) ->
  as_number (normalization obj) = Some k ->
  calcImage W noise rebin clobber outfile image_PA offset_r offset_PA kwargs
    (mkScene (obj :: rest)) st
  = (mkEnv (offset_options off (options st)) (files st),
     Raise (UnboundLocalError "effstim_Jy")).
Proof.
  intros Hoff Hpsf Hk. apply calcImage_raise_in_loop. simpl sources.
  apply loop_raise_first. rewrite loop_body_unfold, Hoff. simpl.
  f_equal. eapply iteration_first_scalar; eassumption.
Qed.

(** C2. For a scene of one source with an explicit scalar normalization
    [calcImage] returns no composite at all, whatever the simulator does, so
    there is no pixel sum to compare with the scaled PSF. *)
Theorem single_scalar_source_never_returns obj k (st st' : Env Image) img :
  as_number (normalization obj) = Some k ->
  calcImage W noise rebin clobber outfile image_PA offset_r offset_PA kwargs
    (mkScene [obj]) st <> (st', Ok img).
Proof.
  intros Hk H. apply calcImage_ok in H.
  destruct H as (_ & st1 & loc & _ & _ & _ & Hl & _).
  simpl in Hl. apply bind_ok in Hl. destruct Hl as (st2 & loc1 & Hb & _).
  rewrite loop_body_unfold in Hb.
  destruct (resolve obj) as [off|e]; [|discriminate].
  simpl in Hb.
  destruct (iteration_scalar_unbound obj (mkLocals None None)
              (offset_options off (options st)) k Hk eq_refl) as [e He].
  rewrite He in Hb. discriminate.
Qed.

(** C5. The two unimplemented paths do stop the call, but with the
    [TypeError] of calling [NotImplemented], not with a "not implemented"
    error: a first source whose normalization is neither [None] nor a number
    raises it once its PSF is computed, and a request for noise raises it
    after the loop; in the noise case no file has been written. *)
Theorem unimplemented_paths_raise_TypeError :
  (forall obj rest (st : Env Image) off psf,
     resolve_offset image_PA offset_r offset_PA obj = Ok off ->
     calcPSF W (offset_options off (options st)) (spectrum obj) rebin kwargs = Ok psf ->
     normalization obj <> PyNone -> as_number (normalization obj) = None ->
     calcImage W noise rebin clobber outfile image_PA offset_r offset_PA kwargs
       (mkScene (obj :: rest)) st
     = (mkEnv (offset_options off (options st)) (files st),
        Raise (TypeError "'NotImplementedType' object is not callable")))
  /\
  (forall self (st st1 : Env Image) loc,
     loop W rebin image_PA offset_r offset_PA kwargs (sources self) (mkLocals None None)
       st = (st1, Ok loc) ->
     calcImage W true rebin clobber outfile image_PA offset_r offset_PA
       kwargs self st =
       (st1, Raise (TypeError "'NotImplementedType' object is not callable"))
     /\ files st1 = files st).
Proof.
  split.
  - intros obj rest st off psf Hoff Hpsf Hn Hk.
    apply calcImage_raise_in_loop. simpl sources.
    apply loop_raise_first. rewrite loop_body_unfold, Hoff. simpl.
    f_equal. unfold iteration. rewrite Hpsf. simpl.
    unfold normalize. destruct (normalization obj); try discriminate Hk;
      try reflexivity. now contradict Hn.
  - intros self st st1 loc Hl. split.
    + unfold calcImage, bind. now rewrite Hl.
    + eapply loop_files. exact Hl.
Qed.

(** *** The history log *)

Lemma added_lines_primary (f : HDU Image -> HDU Image) s s' :
  (forall p, List.filter is_added_source (history (header (f p)))
             = List.filter is_added_source (history (header p))) ->
  on_primary f s = Ok s' -> added_lines (Some s') = added_lines (Some s).
Proof.
  intros Hf. destruct s as [|p rest]; [discriminate|].
  intros [= <-]. simpl. apply Hf.
Qed.

Lemma filter_add_history (keep : bool) line (h : Header) :
  is_added_source line = keep ->
  List.filter is_added_source (history (add_history line h))
  = (List.filter is_added_source (history h) ++ if keep then [line] else [])%list.
Proof.
  intros Hk. unfold add_history. simpl. rewrite List.filter_app. simpl.
  rewrite Hk. destruct keep; reflexivity.
Qed.

Lemma added_lines_note line (s s' : list (HDU Image)) :
  is_added_source line = false ->
  on_primary (on_header (add_history line)) s = Ok s' ->
  added_lines (Some s') = added_lines (Some s).
Proof.
  intros Hl. apply added_lines_primary. intros p.
  unfold on_header. cbn [header].
  rewrite (filter_add_history false _ _ Hl). apply app_nil_r.
Qed.

Lemma added_lines_update key v c (s s' : list (HDU Image)) :
  on_primary (on_header (header_update key v c)) s = Ok s' ->
  added_lines (Some s') = added_lines (Some s).
Proof. apply added_lines_primary. reflexivity. Qed.

Lemma normalize_added obj opts psf loc scaled :
  normalize W obj opts psf loc = Ok scaled ->
  added_lines (Some (fst scaled)) = added_lines (Some psf).
Proof.
  unfold normalize.
  destruct (normalization obj); simpl;
    repeat match goal with
    | |- context [rbind ?r _] => destruct r eqn:?; simpl; try discriminate
    end;
    intros [= <-]; simpl;
    eapply added_lines_primary; try eassumption; reflexivity.
Qed.

Lemma accumulate_added psf loc s :
  accumulate W image_PA offset_r offset_PA psf loc = Ok s ->
  added_lines (Some s) =
  match sum_image loc with
  | None => added_lines (Some psf)
  | Some s0 => added_lines (Some s0)
  end.
Proof.
  unfold accumulate. destruct (sum_image loc) as [s0|].
  - destruct (hdu0 s0) as [p|]; cbn [rbind]; [|discriminate].
    destruct (hdu0 psf) as [q|]; cbn [rbind]; [|discriminate].
    destruct (img_iadd W (data p) (data q)); cbn [rbind]; [|discriminate].
    apply added_lines_primary. reflexivity.
  - destruct (on_primary _ psf) as [s1|] eqn:H1; cbn [rbind]; [|discriminate].
    destruct (on_primary _ s1) as [s2|] eqn:H2; cbn [rbind]; [|discriminate].
    destruct (on_primary _ s2) as [s3|] eqn:H3; cbn [rbind]; [|discriminate].
    destruct (on_primary _ s3) as [s4|] eqn:H4; cbn [rbind]; [|discriminate].
    apply added_lines_note in H1; [|reflexivity].
    apply added_lines_update in H2, H3, H4.
    intros H5. rewrite <- H1, <- H2, <- H3, <- H4.
    destruct offset_r; [destruct offset_PA; [|discriminate]|];
      (eapply added_lines_note; [|exact H5]); reflexivity.
Qed.

Lemma provenance_added obj opts psf e (s s' : list (HDU Image)) :
  provenance W obj opts psf e s = Ok s' ->
  added_lines (Some s') = (added_lines (Some s) ++ [added_source_line W obj])%list.
Proof.
  unfold provenance.
  destruct (on_primary _ s) as [s1|] eqn:H1; cbn [rbind]; [|discriminate].
  destruct e as [e|]; [|discriminate].
  destruct (on_primary _ s1) as [s2|] eqn:H2; cbn [rbind]; [|discriminate].
  destruct (hdu0 psf) as [q|]; cbn [rbind]; [|discriminate].
  destruct (on_primary _ s2) as [s3|] eqn:H3; cbn [rbind]; [|discriminate].
  destruct (fmt_option _ _ opts) as [r|]; cbn [rbind]; [|discriminate].
  destruct (fmt_option _ _ opts) as [t|]; cbn [rbind]; [|discriminate].
  intros H4.
  apply added_lines_note in H2, H3, H4; try reflexivity.
  rewrite H4, H3, H2.
  destruct s as [|p rest]; [discriminate|].
  injection H1 as <-. simpl.
  apply (filter_add_history true). reflexivity.
Qed.

Lemma iteration_added obj loc opts loc' :
  simulator_history_clean W ->
  iter obj loc opts = Ok loc' ->
  added_lines (sum_image loc')
  = (added_lines (sum_image loc) ++ [added_source_line W obj])%list.
Proof.
  intros Hclean. unfold iteration.
  destruct (calcPSF W opts (spectrum obj) rebin kwargs) as [psf|] eqn:Hpsf;
    cbn [rbind]; [|discriminate].
  destruct (normalize W obj opts psf loc) as [scaled|] eqn:Hn;
    cbn [rbind]; [|discriminate].
  destruct (accumulate W image_PA offset_r offset_PA (fst scaled) loc) as [s|] eqn:Ha;
    cbn [rbind]; [|discriminate].
  destruct (provenance W obj opts (fst scaled) (snd scaled) s) as [s'|] eqn:Hp;
    cbn [rbind]; [|discriminate].
  intros [= <-]. cbn [sum_image].
  rewrite (provenance_added _ _ _ _ _ _ Hp), (accumulate_added _ _ _ Ha).
  f_equal. destruct (sum_image loc) as [s0|]; [reflexivity|].
  rewrite (normalize_added _ _ _ _ _ Hn).
  destruct psf as [|p rest]; [reflexivity|]. simpl.
  eapply Hclean. exact Hpsf.
Qed.

Lemma loop_added objs : forall loc st st' loc',
  simulator_history_clean W ->
  run objs loc st = (st', Ok loc') ->
  added_lines (sum_image loc')
  = (added_lines (sum_image loc) ++ map (added_source_line W) objs)%list.
Proof.
  induction objs as [|obj objs IH]; intros loc st st' loc' Hclean H.
  - injection H as _ <-. simpl. symmetry. apply app_nil_r.
  - simpl in H. apply bind_ok in H. destruct H as (st1 & loc1 & Hb & Hl).
    rewrite loop_body_unfold in Hb.
    destruct (resolve obj) as [off|]; [|discriminate].
    simpl in Hb. injection Hb as _ Hb.
    rewrite (IH _ _ _ _ Hclean Hl), (iteration_added _ _ _ _ Hclean Hb).
    rewrite <- app_assoc. reflexivity.
Qed.

Lemma header_get_update_eq key v c h :
  header_get key (header_update key v c h) = Ok v.
Proof. unfold header_get, header_update. simpl. now rewrite lookup_insert_eq. Qed.

Lemma header_get_update_ne key key' v c h :
  key' <> key ->
  header_get key (header_update key' v c h) = header_get key h.
Proof.
  intros Hne. unfold header_get, header_update. simpl.
  now rewrite lookup_insert_ne.
Qed.

(** The rebinning step, when it succeeds, keeps the primary extension. *)
Lemma rebin_step_primary (s s' : list (HDU Image)) :
  rebin_step W rebin s = Ok s' -> hdu0 s' = hdu0 s.
Proof.
  unfold rebin_step. destruct rebin; [|now intros [= <-]].
  destruct s as [|p rest]; [discriminate|]. cbn [hdu0 rbind].
  destruct (header_get "DET_SAMP" (header p)) as [d|]; cbn [rbind]; [|discriminate].
  destruct (py_gt_one d); [|now intros [= <-]].
  destruct rest as [|q rest]; [discriminate|].
  cbn [pop rbind].
  change (removelast (p :: q :: rest)) with (p :: removelast (q :: rest)).
  cbn [hdu0 rbind].
  destruct (header_get "DET_SAMP" (header p)); cbn [rbind]; [|discriminate].
  destruct (rebin_array W _ _ _); cbn [rbind]; [|discriminate].
  destruct (header_get "PIXELSCL" _); cbn [rbind]; [|discriminate].
  destruct (py_mul _ _); cbn [rbind]; [|discriminate].
  now intros [= <-].
Qed.

(** What a returned composite owes to the end of the loop: the primary
    header is the accumulator's, with NSOURCES and possibly FILENAME set. *)
Lemma calcImage_primary self st st' img :
  call self st = (st', Ok img) ->
  exists st1 loc p0 rest0 p rest,
    run (sources self) (mkLocals None None) st = (st1, Ok loc) /\
    sum_image loc = Some (p0 :: rest0) /\
    img = p :: rest /\
    history (header p) = history (header p0) /\
    header_get "NSOURCES" (header p)
      = Ok (PyInt (Z.of_nat (length (sources self)))).
Proof.
  intros H. apply calcImage_ok in H.
  destruct H as (_ & st1 & loc & s0 & s1 & s2 & Hl & Hs & H1 & H2 & H3).
  destruct s0 as [|p0 rest0]; [discriminate|]. injection H1 as <-.
  apply rebin_step_primary in H2. destruct s2 as [|p2 rest2]; [discriminate|].
  injection H2 as ->.
  exists st1, loc, p0, rest0. unfold save in H3. destruct outfile as [path|].
  - apply bind_ok in H3. destruct H3 as (st2 & s3 & H3 & H4).
    injection H3 as <- <-.
    apply bind_ok in H4. destruct H4 as (st3 & [] & _ & H4).
    injection H4 as _ <-. eexists _, _. repeat split; [assumption..|].
    unfold on_header. cbn [header]. rewrite header_get_update_ne by discriminate.
    apply header_get_update_eq.
  - injection H3 as _ <-. eexists _, _. repeat split; [assumption..|].
    apply header_get_update_eq.
Qed.

End CompositorProperties.

Section HistoryLog.

Context {Spectrum Bandpass Image Kwargs : Type}.
Variable W : Externals Spectrum Bandpass Image Kwargs.

(** C6. With no pointing offset, the composite that [calcImage] returns for
    a scene of N sources has NSOURCES = N in its primary header, and the
    lines of its history that begin "Added source" are exactly the N lines
    of the sources, in the order in which the scene lists them. The
    simulator is taken not to write such lines itself. *)
Theorem composite_counts_sources noise rebin clobber outfile image_PA offset_PA
    kwargs (self : TargetScene Spectrum) (st st' : Env Image) img :
  simulator_history_clean W ->
  calcImage W noise rebin clobber outfile image_PA None offset_PA kwargs self st
    = (st', Ok img) ->
  exists p rest,
    img = p :: rest /\
    header_get "NSOURCES" (header p) = Ok (PyInt (Z.of_nat (length (sources self)))) /\
    List.filter is_added_source (history (header p))
      = map (added_source_line W) (sources self) /\
    length (List.filter is_added_source (history (header p))) = length (sources self) /\
    (1 <= length (sources self))%nat.
Proof.
  intros Hclean H.
  assert (Hne : sources self <> []).
  { intros He. destruct self as [objs]. simpl in He. subst objs.
    rewrite calcImage_nil in H. discriminate. }
  apply calcImage_primary in H.
  destruct H as (st1 & loc & p0 & rest0 & p & rest & Hl & Hs & -> & Hh & Hn).
  apply (loop_added _ _ _ _ _ _) in Hl; [|exact Hclean].
  rewrite Hs in Hl. simpl in Hl.
  exists p, rest. rewrite Hh, Hl.
  repeat split; [exact Hn|now rewrite length_map|].
  destruct (sources self); [contradiction|simpl; lia].
Qed.

End HistoryLog.

Section Rebinning.

Context {Spectrum Bandpass Image Kwargs : Type}.
Variable W : Externals Spectrum Bandpass Image Kwargs.

(** C8. With [rebin = True] and a composite whose DET_SAMP is greater than
    1, the last extension is dropped and a new one is appended in its place:
    a copy of the primary whose pixels are those of the primary passed
    through [rebin_array] with the oversampling factor in both directions,
    and whose header has OVERSAMP = 1, CALCSAMP = the factor,
    EXTNAME = 'DET_SAMP' and PIXELSCL = the primary's pixel scale times the
    factor, every other card and the history being the primary's. The
    primary itself, pixels included, and the extensions in between are left
    as they were. *)
Theorem rebin_replaces_last_extension (p : HDU Image) mid last d scale newdata scaled :
  header_get "DET_SAMP" (header p) = Ok d ->
  py_gt_one d = true ->
  rebin_array W (data p) d d = Ok newdata ->
  header_get "PIXELSCL" (header p) = Ok scale ->
  py_mul scale d = Ok scaled ->
  exists ext,
    rebin_step W true (p :: mid ++ [last])%list = Ok (p :: mid ++ [ext])%list
    /\ data ext = newdata
    /\ header_get "OVERSAMP" (header ext) = Ok (PyInt 1)
    /\ header_get "CALCSAMP" (header ext) = Ok d
    /\ header_get "EXTNAME" (header ext) = Ok (PyStr "DET_SAMP")
    /\ header_get "PIXELSCL" (header ext) = Ok scaled
    /\ history (header ext) = history (header p)
    /\ forall key,
         key <> "OVERSAMP" -> key <> "CALCSAMP" -> key <> "EXTNAME" ->
         key <> "PIXELSCL" ->
         header_get key (header ext) = header_get key (header p).
Proof.
  intros Hd Hgt Hnew Hscale Hmul.
  unfold rebin_step. cbn [hdu0 rbind]. rewrite Hd. cbn [rbind]. rewrite Hgt.
  assert (Hpop : pop (p :: mid ++ [last])%list = Ok (p :: mid)).
  { unfold pop. f_equal.
    change (p :: mid ++ [last])%list with ((p :: mid) ++ [last])%list.
    apply removelast_last. }
  rewrite Hpop. cbn [hdu0 rbind]. rewrite Hd. cbn [rbind].
  rewrite Hnew. cbn [rbind].
  rewrite !header_get_update_ne by discriminate.
  rewrite Hscale. cbn [rbind]. rewrite Hmul. cbn [rbind].
  eexists. split; [reflexivity|]. cbn [data header].
  repeat split.
  - rewrite !header_get_update_ne by discriminate. apply header_get_update_eq.
  - rewrite !header_get_update_ne by discriminate. apply header_get_update_eq.
  - rewrite !header_get_update_ne by discriminate. apply header_get_update_eq.
  - apply header_get_update_eq.
  - intros key H1 H2 H3 H4. now rewrite !header_get_update_ne by congruence.
Qed.

(** Without a second extension the step drops the primary itself and fails. *)
Lemma rebin_single_extension (p : HDU Image) d :
  header_get "DET_SAMP" (header p) = Ok d ->
  py_gt_one d = true ->
  rebin_step W true [p] = Raise (IndexError "list index out of range").
Proof.
  intros Hd Hgt. unfold rebin_step. cbn [hdu0 rbind]. rewrite Hd. cbn [rbind].
  rewrite Hgt. reflexivity.
Qed.

End Rebinning.

(** ** The resolved offset *)

Section ZeroOffset.

Variable L : Binary64.Libm.

(** A zero times a finite number is a zero. *)
Lemma mul_zero_finite (s : bool) (c : Binary64.float) :
  Binary64.is_finite c = true ->
  exists s', Binary64.mul (SpecFloat.S754_zero s) c = SpecFloat.S754_zero s'.
Proof.
  destruct c as [sc|sc| |sc m e]; cbn; intros H; try discriminate H; eauto.
Qed.

(** [0.0] plus a zero of either sign is [0.0]. *)
Lemma add_zero_zero (s : bool) :
  Binary64.add Binary64.zero (SpecFloat.S754_zero s) = Binary64.zero.
Proof. destruct s; reflexivity. Qed.


End ZeroOffset.


(** ** The properties on the concrete world *)

(** The stand-in simulator writes no "Added source" line. *)
Lemma demo_history_clean : simulator_history_clean Demo.world.
Proof. intros opts sp rb kw p rest [= <- _]. reflexivity. Qed.

(** The block average of a 2x2 image by a factor 2 is the mean of its pixels. *)
Example block_average_2x2 : Demo.block_average 2 [[1; 3]; [5; 7]]%R = [[4%R]].
Proof.
  unfold Demo.block_average. simpl. unfold Demo.add_rows. simpl.
  do 2 f_equal. field.
Qed.

(** The listing when the dict enumerates its keys in the order of the literal. *)
Lemma listing_sorted_by_ordinal_witness :
  Permutation (keys_order Demo.world) table_keys /\
  specFromSpectralType Demo.world "" true = Ok (SptypeList sorted_sptypes).
Proof.
  split; [apply Permutation_refl|].
  apply (listing_sorted_by_ordinal Demo.world ""). apply Permutation_refl.
Defined.

(** "Z9Z" is not a spectral type of the table. *)
Lemma Z9Z_not_a_key : ~ In "Z9Z" table_keys.
Proof.
  intros H. repeat (destruct H as [H|H]; [discriminate H|]). exact H.
Defined.

(** Adding a source of type "Z9Z" to the scene of [test_obssim]. *)
Lemma unknown_sptype_lookup_error_witness :
  ~ In "Z9Z" table_keys /\
  addPointSource Demo.world (inl "Z9Z") "unnamed source" 0 0 PyNone Demo.test_scene
  = (Demo.test_scene,
     Raise (LookupError "Lookup table does not include spectral type Z9Z")).
Proof.
  split; [exact Z9Z_not_a_key|].
  apply (unknown_sptype_lookup_error Demo.world "Z9Z" Z9Z_not_a_key).
Defined.

(** The empty scene, without noise. *)
Lemma calcImage_empty_scene_witness :
  calcImage Demo.world false true true None 0 None (Some 0%R) tt (mkScene []) Demo.env0
  = (Demo.env0, Raise (TypeError "'NoneType' object has no attribute '__getitem__'")).
Proof.
  apply (calcImage_empty_scene Demo.world false true true None 0 None (Some 0%R) tt
           Demo.env0).
Defined.

(** The scene of [test_obssim]: its first source is scaled by 1.0. *)
Lemma scalar_first_source_raises_unbound_witness :
  as_number (PyFloat 1) = Some 1%R /\
  calcImage Demo.world false true true None 0 None (Some 0%R) tt Demo.test_scene Demo.env0
  = (mkEnv (offset_options (1 / 10, 0 - 0)%R ∅) ∅, Raise (UnboundLocalError "effstim_Jy")).
Proof.
  split; [reflexivity|].
  apply (scalar_first_source_raises_unbound Demo.world false true true None 0 None
           (Some 0%R) tt (Demo.source "G0V" "G0V star" (1 / 10) 0 (PyFloat 1)) _
           Demo.env0 (1 / 10, 0 - 0)%R _ _ 1%R eq_refl eq_refl eq_refl).
Defined.

(** A scene of one source scaled by 0.4. *)
Lemma single_scalar_source_never_returns_witness :
  as_number (PyFloat (4 / 10)) = Some (4 / 10)%R /\
  forall st' img,
    calcImage Demo.world false true true None 0 None (Some 0%R) tt
      (mkScene [Demo.source "K0V" "K0V star" 1 45 (PyFloat (4 / 10))]) Demo.env0
    <> (st', Ok img).
Proof.
  split; [reflexivity|]. intros st' img.
  apply (single_scalar_source_never_returns Demo.world false true true None 0 None
           (Some 0%R) tt (Demo.source "K0V" "K0V star" 1 45 (PyFloat (4 / 10)))
           (4 / 10)%R Demo.env0 st' img eq_refl).
Defined.

(** A source normalized by a tuple, and a request for noise on a scene whose
    loop completes. *)
Lemma unimplemented_paths_raise_TypeError_witness :
  (as_number (PyTuple [PyFloat 1; PyStr "Jy"]) = None /\
   calcImage Demo.world false true true None 0 None (Some 0%R) tt
     (mkScene [Demo.source "G0V" "star" 0 0 (PyTuple [PyFloat 1; PyStr "Jy"])]) Demo.env0
   = (mkEnv (offset_options (0, 0 - 0)%R ∅) ∅,
      Raise (TypeError "'NotImplementedType' object is not callable")))
  /\
  exists st1 loc,
    loop Demo.world true 0 None (Some 0%R) tt (sources Demo.implicit_scene)
      (mkLocals None None) Demo.env0 = (st1, Ok loc) /\
    calcImage Demo.world true true true (Some "scene.fits") 0 None (Some 0%R) tt
      Demo.implicit_scene Demo.env0
    = (st1, Raise (TypeError "'NotImplementedType' object is not callable")) /\
    files st1 = files Demo.env0.
Proof.
  pose proof (unimplemented_paths_raise_TypeError Demo.world false true true None 0 None
                (Some 0%R) tt) as [HA _].
  pose proof (unimplemented_paths_raise_TypeError Demo.world false true true
                (Some "scene.fits") 0 None (Some 0%R) tt) as [_ HB].
  split.
  - split; [reflexivity|].
    apply (HA (Demo.source "G0V" "star" 0 0 (PyTuple [PyFloat 1; PyStr "Jy"])) []
              Demo.env0 (0, 0 - 0)%R Demo.unit_psf eq_refl eq_refl).
    + discriminate.
    + reflexivity.
  - destruct (loop Demo.world true 0 None (Some 0%R) tt (sources Demo.implicit_scene)
                (mkLocals None None) Demo.env0) as [st1 [loc|e]] eqn:H.
    + exists st1, loc. split; [reflexivity|].
      exact (HB Demo.implicit_scene Demo.env0 st1 loc H).
    + vm_compute in H. discriminate H.
Defined.

(** A scene of two sources on which [calcImage] returns. *)
Lemma composite_counts_sources_witness :
  simulator_history_clean Demo.world /\
  exists st' img,
    calcImage Demo.world false true true None 0 None (Some 0%R) tt
      Demo.mixed_scene Demo.env0 = (st', Ok img) /\
    exists p rest,
      img = p :: rest /\
      header_get "NSOURCES" (header p) = Ok (PyInt 2) /\
      List.filter is_added_source (history (header p))
        = [ "Added source primary at r=#.#, theta=#.#";
            "Added source companion at r=#.#, theta=#.#" ].
Proof.
  split; [exact demo_history_clean|].
  destruct (calcImage Demo.world false true true None 0 None (Some 0%R) tt
              Demo.mixed_scene Demo.env0) as [st' [img|e]] eqn:H.
  - exists st', img. split; [reflexivity|].
    destruct (composite_counts_sources Demo.world false true true None 0 (Some 0%R) tt
                Demo.mixed_scene Demo.env0 st' img demo_history_clean H)
      as (p & rest & Hi & Hn & Hh & _).
    exists p, rest. split; [exact Hi|]. split; [exact Hn|exact Hh].
  - vm_compute in H. discriminate H.
Defined.

(** The options after [calcImage] returned on a scene of two sources. *)
Lemma calcImage_leaves_last_offset_witness :
  exists st' img,
    calcImage Demo.world false true true None 0 None (Some 0%R) tt
      Demo.mixed_scene Demo.env0 = (st', Ok img) /\
    exists before last off,
      sources Demo.mixed_scene = (before ++ [last])%list /\
      resolve_offset 0 None (Some 0%R) last = Ok off /\
      options st' = <["source_offset_theta" := PyFloat (snd off)]>
                      (<["source_offset_r" := PyFloat (fst off)]> (options Demo.env0)).
Proof.
  destruct (calcImage Demo.world false true true None 0 None (Some 0%R) tt
              Demo.mixed_scene Demo.env0) as [st' [img|e]] eqn:H.
  - exists st', img. split; [reflexivity|].
    exact (proj2 (calcImage_leaves_last_offset Demo.world false true true None 0 None
                    (Some 0%R) tt) Demo.mixed_scene Demo.env0 st' img H).
  - vm_compute in H. discriminate H.
Defined.

(** The rebinning step on the PSF of the stand-in simulator. *)
Lemma rebin_replaces_last_extension_witness :
  py_gt_one (PyInt 2) = true /\
  exists ext,
    rebin_step Demo.world true Demo.unit_psf
      = Ok [mkHDU (Demo.psf_header "OVERSAMP" 2 1%R) [[1; 3]; [5; 7]]%R; ext] /\
    data ext = Demo.block_average 2 [[1; 3]; [5; 7]]%R /\
    header_get "PIXELSCL" (header ext) = Ok (PyFloat (1 * IZR 2)).
Proof.
  split; [reflexivity|].
  destruct (rebin_replaces_last_extension Demo.world
              (mkHDU (Demo.psf_header "OVERSAMP" 2 1%R) [[1; 3]; [5; 7]]%R) []
              (mkHDU (Demo.psf_header "DET_SAMP" 1 2%R) [[4]]%R)
              (PyInt 2) (PyFloat 1) (Demo.block_average 2 [[1; 3]; [5; 7]]%R)
              (PyFloat (1 * IZR 2)) eq_refl eq_refl eq_refl eq_refl eq_refl)
    as (ext & H1 & H2 & _ & _ & _ & H3 & _).
  exists ext. split; [exact H1|]. split; [exact H2|exact H3].
Defined.


(** * Further properties *)

From Stdlib Require Lqa.

(** ** The scene and the resolver *)

Section SceneProperties.

Context {Spectrum Bandpass Image Kwargs : Type}.
Variable W : Externals Spectrum Bandpass Image Kwargs.

(** X1. A spectral type of the table is run through [Icat] only to check
    it: when [Icat] succeeds the descriptor appended to the scene holds the
    type string as given, not the spectrum that was built, and when [Icat]
    raises the error is passed on and the scene is left as it was. A
    spectrum object is appended without any lookup. *)
Theorem addPointSource_outcome name separation PA normalization
    (self : TargetScene Spectrum) :
  (forall s teff metallicity logg,
     dict_get String.eqb lookuptable s = Some (teff, metallicity, logg) ->
     addPointSource W (inl s) name separation PA normalization self
     = match Icat W "ck04models" teff metallicity logg with
       | Ok _ => (mkScene (sources self ++
                    [mkSource (inl s) separation PA normalization name])%list, Ok tt)
       | Raise e => (self, Raise e)
       end)
  /\
  (forall sp : Spectrum,
     addPointSource W (inr sp) name separation PA normalization self
     = (mkScene (sources self ++
          [mkSource (inr sp) separation PA normalization name])%list, Ok tt)).
Proof.
  split; [|reflexivity].
  intros s teff metallicity logg Hs.
  unfold addPointSource, specFromSpectralType. rewrite Hs.
  destruct (Icat W "ck04models" teff metallicity logg); reflexivity.
Qed.

End SceneProperties.

(** ** The sort key *)

Lemma lettervals_range c lv :
  dict_get Ascii.eqb lettervals c = Some lv ->
  exists k, lv = (10 * k)%Z /\ (0 <= k <= 6)%Z.
Proof.
  unfold lettervals. cbn [dict_get].
  repeat (destruct (Ascii.eqb _ c);
          [intros [= <-];
           match goal with
           | |- exists k, ?v = _ /\ _ =>
             let k := eval vm_compute in (v / 10)%Z in exists k
           end;
           split; [reflexivity|lia]|]).
  discriminate.
Qed.

Lemma int_of_char_range d n : int_of_char d = Some n -> (0 <= n <= 9)%Z.
Proof.
  unfold int_of_char.
  destruct (48 <=? nat_of_ascii d)%nat eqn:H1; [|discriminate].
  destruct (nat_of_ascii d <=? 57)%nat eqn:H2; [|discriminate].
  cbn [andb]. intros H. injection H as <-.
  apply Nat.leb_le in H1, H2. lia.
Qed.

(** What [sort_sptype] returns on a string that begins with a class letter
    and a digit: their values plus one of four fractions. *)
Lemma sort_sptype_value c d rest lv n :
  dict_get Ascii.eqb lettervals c = Some lv ->
  int_of_char d = Some n ->
  exists q f,
    sort_sptype (String c (String d rest)) = Ok q
    /\ (q == inject_Z lv + inject_Z n + f)%Q
    /\ (f = 0 \/ f = 1 # 10 \/ f = 3 # 10 \/ f = 5 # 10)%Q.
Proof.
  intros Hc Hd. unfold sort_sptype. cbn [String.get]. rewrite Hc, Hd.
  destruct (contains "III" _);
    [eexists _, (3 # 10); split; [reflexivity|split; [reflexivity|auto]]|].
  destruct (contains "I" _);
    [eexists _, (1 # 10); split; [reflexivity|split; [reflexivity|auto]]|].
  destruct (contains "V" _);
    [eexists _, (5 # 10); split; [reflexivity|split; [reflexivity|auto]]|].
  eexists _, 0%Q. split; [reflexivity|]. split; [|auto]. ring.
Qed.


(** X3. The key orders by class letter first and by digit second: of two
    types the one with the earlier class (in the order O, B, A, F, G, K, M)
    has the smaller key whatever the digits and suffixes are, and within a
    class the one with the smaller digit has the smaller key whatever the
    suffixes are. *)
Theorem sort_sptype_class_then_digit c1 d1 rest1 c2 d2 rest2 lv1 lv2 n1 n2 q1 q2 :
  dict_get Ascii.eqb lettervals c1 = Some lv1 -> int_of_char d1 = Some n1 ->
  dict_get Ascii.eqb lettervals c2 = Some lv2 -> int_of_char d2 = Some n2 ->
  sort_sptype (String c1 (String d1 rest1)) = Ok q1 ->
  sort_sptype (String c2 (String d2 rest2)) = Ok q2 ->
  (lv1 < lv2)%Z \/ (lv1 = lv2 /\ (n1 < n2)%Z) ->
  (q1 < q2)%Q.
Proof.
  intros Hc1 Hd1 Hc2 Hd2 H1 H2 Hlt.
  destruct (sort_sptype_value c1 d1 rest1 lv1 n1 Hc1 Hd1) as (p1 & f1 & E1 & V1 & F1).
  destruct (sort_sptype_value c2 d2 rest2 lv2 n2 Hc2 Hd2) as (p2 & f2 & E2 & V2 & F2).
  rewrite H1 in E1. rewrite H2 in E2. injection E1 as <-. injection E2 as <-.
  rewrite V1, V2.
  destruct (lettervals_range _ _ Hc1) as (k1 & -> & K1).
  destruct (lettervals_range _ _ Hc2) as (k2 & -> & K2).
  apply int_of_char_range in Hd1, Hd2.
  assert (Hz : (10 * k1 + n1 + 1 <= 10 * k2 + n2)%Z) by lia.
  assert (Hq : (inject_Z (10 * k1) + inject_Z n1 + 1
                <= inject_Z (10 * k2) + inject_Z n2)%Q).
  { rewrite <- !inject_Z_plus. change 1%Q with (inject_Z 1).
    rewrite <- inject_Z_plus. now rewrite <- Zle_Qle. }
  destruct F1 as [-> | [-> | [-> | ->]]], F2 as [-> | [-> | [-> | ->]]]; Lqa.lra.
Qed.

(** ** Files and options around [calcImage] *)

Section Environment.

Context {Spectrum Bandpass Image Kwargs : Type}.
Variable W : Externals Spectrum Bandpass Image Kwargs.
Variables (noise rebin clobber : bool) (outfile : option string).
Variables (image_PA : R) (offset_r offset_PA : option R) (kwargs : Kwargs).

Lemma save_outcome (s : list (HDU Image)) (st st' : Env Image) r :
  save clobber outfile s st = (st', r) ->
  options st' = options st /\
  match r with
  | Raise e => st' = st
  | Ok img =>
    match outfile with
    | None => st' = st /\ img = s
    | Some path =>
      files st' = <[path := img]> (files st)
      /\ (clobber = true \/ files st !! path = None)
      /\ on_primary (on_header (header_update "FILENAME" (PyStr (basename path))
           (Some "Name of this file"))) s = Ok img
    end
  end.
Proof.
  unfold save. destruct outfile as [path|].
  - unfold bind, lift, writeto, ret.
    destruct (on_primary _ s) as [s1|e]; [|intros [= <- <-]; auto].
    destruct (files st !! path) as [old|] eqn:Hf, clobber;
      intros [= <- <-]; simpl; auto.
  - unfold ret. intros [= <- <-]. auto.
Qed.

(** Where a call of [calcImage] leaves the environment, for every way it
    can end. *)
Lemma calcImage_outcome self (st st' : Env Image) r :
  calcImage W noise rebin clobber outfile image_PA offset_r offset_PA kwargs self st
    = (st', r) ->
  exists st1 rl,
    loop W rebin image_PA offset_r offset_PA kwargs (sources self)
      (mkLocals None None) st = (st1, rl)
    /\ options st' = options st1
    /\ match r with
       | Raise e => files st' = files st
       | Ok img =>
         match outfile with
         | None => files st' = files st
         | Some path =>
           files st' = <[path := img]> (files st)
           /\ (clobber = true \/ files st !! path = None)
           /\ exists p rest,
                img = p :: rest
                /\ header_get "FILENAME" (header p) = Ok (PyStr (basename path))
         end
       end.
Proof.
  unfold calcImage, bind.
  destruct (loop W rebin image_PA offset_r offset_PA kwargs (sources self)
              (mkLocals None None) st) as [st1 rl] eqn:Hl.
  pose proof (loop_files _ _ _ _ _ _ _ _ _ _ _ Hl) as Hf.
  intros H. exists st1, rl. split; [reflexivity|].
  destruct rl as [loc|e]; [|injection H as <- <-; auto].
  destruct noise; [injection H as <- <-; auto|].
  destruct (sum_image loc) as [s0|]; [|injection H as <- <-; auto].
  unfold lift in H.
  destruct (on_primary _ s0) as [s1|e]; [|injection H as <- <-; auto].
  destruct (rebin_step W rebin s1) as [s2|e]; [|injection H as <- <-; auto].
  apply save_outcome in H. destruct H as [Ho H]. split; [exact Ho|].
  destruct r as [img|e]; [|now subst st'].
  destruct outfile as [path|].
  - destruct H as (H1 & H2 & H3). rewrite <- Hf. repeat split; [assumption..|].
    destruct s2 as [|p rest]; [discriminate|]. injection H3 as <-.
    eexists _, _. split; [reflexivity|]. apply header_get_update_eq.
  - destruct H as [-> _]. exact Hf.
Qed.

(** X4. [calcImage] touches the files only by the final [writeto]: when no
    [outfile] is given, and whenever the call raises (in the loop, at the
    noise check, in the rebinning step or in [writeto] itself), the files
    are what they were. *)
Theorem calcImage_writes_only_on_return self (st st' : Env Image) r :
  calcImage W noise rebin clobber outfile image_PA offset_r offset_PA kwargs self st
    = (st', r) ->
  outfile = None \/ (exists e, r = Raise e) ->
  files st' = files st.
Proof.
  intros H Hc. apply calcImage_outcome in H.
  destruct H as (st1 & rl & _ & _ & H).
  destruct Hc as [Hn|[e ->]]; [|exact H].
  destruct r as [img|e]; [|exact H]. now rewrite Hn in H.
Qed.

(** X7. Whatever the outcome, the only options [calcImage] changes are
    'source_offset_r' and 'source_offset_theta'; if they changed, they hold
    the offset resolved for one of the sources of the scene. *)
Theorem calcImage_options_frame self (st st' : Env Image) r :
  calcImage W noise rebin clobber outfile image_PA offset_r offset_PA kwargs self st
    = (st', r) ->
  (forall key, key <> "source_offset_r" -> key <> "source_offset_theta" ->
               options st' !! key = options st !! key)
  /\ (options st' = options st \/
      exists obj off,
        In obj (sources self)
        /\ resolve_offset image_PA offset_r offset_PA obj = Ok off
        /\ options st' = offset_options off (options st)).
Proof.
  intros H. apply calcImage_outcome in H.
  destruct H as (st1 & rl & Hl & -> & _).
  assert (Hopts : forall objs loc (s s1 : Env Image) rl,
             loop W rebin image_PA offset_r offset_PA kwargs objs loc s = (s1, rl) ->
             options s1 = options s \/
             exists obj off,
               In obj objs
               /\ resolve_offset image_PA offset_r offset_PA obj = Ok off
               /\ options s1 = offset_options off (options s)).
  { clear. induction objs as [|obj objs IH]; intros loc s s1 rl H.
    - injection H as <- _. now left.
    - simpl in H. unfold bind in H.
      destruct (loop_body W rebin image_PA offset_r offset_PA kwargs obj loc s)
        as [s2 [loc2|e]] eqn:Hb;
        apply loop_body_env in Hb; destruct Hb as [_ Hb];
        destruct (resolve_offset image_PA offset_r offset_PA obj) as [off|e'] eqn:Hoff.
      + right. apply IH in H. destruct H as [H|(obj' & off' & Hin & Hoff' & H)].
        * exists obj, off. rewrite H. repeat split; [now left|assumption..].
        * exists obj', off'. repeat split; [now right|assumption|].
          rewrite H, Hb. apply offset_options_twice.
      + destruct Hb as [_ Hb]. discriminate.
      + injection H as <- _. right. exists obj, off.
        repeat split; [now left|assumption..].
      + injection H as <- _. destruct Hb as [-> _]. now left. }
  apply Hopts in Hl. split; [|exact Hl].
  intros key H1 H2.
  destruct Hl as [->|(obj & off & _ & _ & ->)]; [reflexivity|].
  unfold offset_options. now rewrite !lookup_insert_ne by congruence.
Qed.

End Environment.

Section Output.

Context {Spectrum Bandpass Image Kwargs : Type}.
Variable W : Externals Spectrum Bandpass Image Kwargs.
Variables (noise rebin : bool).
Variables (image_PA : R) (offset_r offset_PA : option R) (kwargs : Kwargs).

(** X5. When [calcImage] returns with an [outfile], that file now holds the
    returned composite, every other file is what it was, and the primary
    header of the composite carries FILENAME, the base name of the path. *)
Theorem calcImage_saves_composite clobber path self (st st' : Env Image) img :
  calcImage W noise rebin clobber (Some path) image_PA offset_r offset_PA kwargs
    self st = (st', Ok img) ->
  files st' !! path = Some img
  /\ (forall other, other <> path -> files st' !! other = files st !! other)
  /\ exists p rest,
       img = p :: rest
       /\ header_get "FILENAME" (header p) = Ok (PyStr (basename path)).
Proof.
  intros H. apply calcImage_outcome in H.
  destruct H as (st1 & rl & _ & _ & Hf & _ & Hp).
  rewrite Hf. split; [apply lookup_insert_eq|]. split; [|exact Hp].
  intros other Hne. now apply lookup_insert_ne.
Qed.

(** X6. With [clobber = False] an [outfile] that already exists is never
    replaced: the call does not return a composite and leaves the files as
    they were. *)
Theorem calcImage_keeps_existing_file path self (st st' : Env Image) old r :
  files st !! path = Some old ->
  calcImage W noise rebin false (Some path) image_PA offset_r offset_PA kwargs
    self st = (st', r) ->
  files st' = files st /\ forall img, r <> Ok img.
Proof.
  intros Hold H. pose proof H as H'. apply calcImage_outcome in H.
  destruct H as (st1 & rl & _ & _ & H).
  destruct r as [img|e].
  - destruct H as (_ & [Hc|Hn] & _); [discriminate|congruence].
  - split; [exact H|]. discriminate.
Qed.

(** X8. A pointing offset given as a radius with [offset_PA = None] makes
    the call raise [TypeError] at the first source, before any option is
    written and before the simulator is called. *)
Theorem calcImage_offset_without_angle clobber outfile r obj rest (st : Env Image) :
  calcImage W noise rebin clobber outfile image_PA (Some r) None kwargs
    (mkScene (obj :: rest)) st
  = (st, Raise (TypeError
       "unsupported operand type(s) for *: 'NoneType' and 'float'")).
Proof.
  apply calcImage_raise_in_loop. simpl sources. apply loop_raise_first.
  now rewrite loop_body_unfold.
Qed.

(** X9. An exception of the simulator at the first source ends the call
    with that exception; the offset of that source stays in the options and
    no file is written. *)
Theorem calcImage_simulator_error clobber outfile obj rest (st : Env Image) off e :
  resolve_offset image_PA offset_r offset_PA obj = Ok off ->
  calcPSF W (offset_options off (options st)) (spectrum obj) rebin kwargs = Raise e ->
  calcImage W noise rebin clobber outfile image_PA offset_r offset_PA kwargs
    (mkScene (obj :: rest)) st
  = (mkEnv (offset_options off (options st)) (files st), Raise e).
Proof.
  intros Hoff Hpsf. apply calcImage_raise_in_loop. simpl sources.
  apply loop_raise_first. rewrite loop_body_unfold, Hoff. simpl.
  f_equal. unfold iteration. now rewrite Hpsf.
Qed.

End Output.

(** ** What the loop does to the accumulator *)

Section Accumulator.

Context {Spectrum Bandpass Image Kwargs : Type}.
Variable W : Externals Spectrum Bandpass Image Kwargs.
Variables (rebin : bool) (image_PA : R) (offset_r offset_PA : option R).
Variable kwargs : Kwargs.

Lemma normalize_inv obj opts psf (loc : Locals Image) scaled :
  normalize W obj opts psf loc = Ok scaled ->
  exists q qs flux,
    psf = q :: qs
    /\ fst scaled = mkHDU (header q) (img_imul W (data q) flux) :: qs
    /\ ((normalization obj = PyNone
         /\ (exists bp, getSynphotBandpass W opts = Ok bp
                        /\ effstim W (spectrum obj) bp = Ok flux)
         /\ snd scaled = Some flux)
        \/ (as_number (normalization obj) = Some flux
            /\ snd scaled = effstim_Jy loc)).
Proof.
  unfold normalize.
  destruct (normalization obj) eqn:Hn; cbn [as_number].
  - destruct (getSynphotBandpass W opts) as [bp|] eqn:Hb; cbn [rbind]; [|discriminate].
    destruct (effstim W (spectrum obj) bp) as [e|] eqn:He; cbn [rbind]; [|discriminate].
    destruct psf as [|q qs]; [discriminate|]. cbn [on_primary rbind].
    intros [= <-]. exists q, qs, e. repeat split. left. eauto.
  - destruct psf as [|q qs]; [discriminate|]. cbn [on_primary rbind].
    intros [= <-]. eexists q, qs, _. repeat split. right. auto.
  - destruct psf as [|q qs]; [discriminate|]. cbn [on_primary rbind].
    intros [= <-]. eexists q, qs, _. repeat split. right. auto.
  - destruct psf as [|q qs]; [discriminate|]. cbn [on_primary rbind].
    intros [= <-]. eexists q, qs, _. repeat split. right. auto.
  - discriminate.
  - discriminate.
Qed.

Lemma accumulate_first_inv psf (loc : Locals Image) s :
  sum_image loc = None ->
  accumulate W image_PA offset_r offset_PA psf loc = Ok s ->
  exists q qs note,
    psf = q :: qs
    /\ acquisition_note W offset_r offset_PA = Some note
    /\ s = mkHDU (mkHeader
                   (cards (scene_cards image_PA offset_r offset_PA (header q)))
                   (history (header q)
                    ++ ["obssim : Creating an image simulation with multiple PSFs";
                        note])%list)
                 (data q) :: qs.
Proof.
  intros Hs. unfold accumulate. rewrite Hs.
  destruct psf as [|q qs]; [discriminate|]. cbn [on_primary rbind].
  unfold acquisition_note.
  destruct offset_r as [r|]; [destruct offset_PA as [a|]; [|discriminate]|];
    intros [= <-]; eexists q, qs, _; (split; [reflexivity|]);
    (split; [reflexivity|]); unfold on_header, add_history, scene_cards;
    cbn [header data cards history header_update];
    rewrite <- app_assoc; reflexivity.
Qed.

Lemma accumulate_later_inv psf (loc : Locals Image) p rest s :
  sum_image loc = Some (p :: rest) ->
  accumulate W image_PA offset_r offset_PA psf loc = Ok s ->
  exists q qs d,
    psf = q :: qs
    /\ img_iadd W (data p) (data q) = Ok d
    /\ s = mkHDU (header p) d :: rest.
Proof.
  intros Hs. unfold accumulate. rewrite Hs. cbn [hdu0 rbind].
  destruct psf as [|q qs]; [discriminate|]. cbn [hdu0 rbind].
  destruct (img_iadd W (data p) (data q)) as [d|] eqn:Hd; cbn [rbind]; [|discriminate].
  intros [= <-]. exists q, qs, d. auto.
Qed.

Lemma provenance_inv obj opts (psf : list (HDU Image)) flux s s' :
  provenance W obj opts psf flux s = Ok s' ->
  exists e p rest q qs r t,
    flux = Some e /\ s = p :: rest /\ psf = q :: qs
    /\ fmt_option (fmt_g W 3) "source_offset_r" opts = Ok r
    /\ fmt_option (fmt_f W 1) "source_offset_theta" opts = Ok t
    /\ s' = mkHDU (mkHeader (cards (header p))
                     (history (header p) ++ provenance_lines W obj e (data q) r t)%list)
                  (data p) :: rest.
Proof.
  unfold provenance.
  destruct s as [|p rest]; [discriminate|]. cbn [on_primary rbind].
  destruct flux as [e|]; [|discriminate]. cbn [on_primary rbind].
  destruct psf as [|q qs]; [discriminate|]. cbn [hdu0 on_primary rbind].
  destruct (fmt_option (fmt_g W 3) "source_offset_r" opts) as [r|]; cbn [rbind];
    [|discriminate].
  destruct (fmt_option (fmt_f W 1) "source_offset_theta" opts) as [t|]; cbn [rbind];
    [|discriminate].
  cbn [on_primary]. intros [= <-]. exists e, p, rest, q, qs, r, t.
  repeat split. unfold on_header, add_history, provenance_lines, added_source_line.
  cbn [header data cards history]. rewrite <- !app_assoc. reflexivity.
Qed.

(** One iteration on an accumulator that already holds a composite. *)
Lemma iteration_later_inv obj (loc loc' : Locals Image) opts p rest :
  sum_image loc = Some (p :: rest) ->
  iteration W rebin image_PA offset_r offset_PA kwargs obj loc opts = Ok loc' ->
  exists q qs flux e d r t,
    calcPSF W opts (spectrum obj) rebin kwargs = Ok (q :: qs)
    /\ img_iadd W (data p) (img_imul W (data q) flux) = Ok d
    /\ fmt_option (fmt_g W 3) "source_offset_r" opts = Ok r
    /\ fmt_option (fmt_f W 1) "source_offset_theta" opts = Ok t
    /\ loc' = mkLocals
         (Some (mkHDU
            (mkHeader (cards (header p))
               (history (header p)
                ++ provenance_lines W obj e (img_imul W (data q) flux) r t)%list)
            d :: rest))
         (Some e)
    /\ ((normalization obj = PyNone
         /\ (exists bp, getSynphotBandpass W opts = Ok bp
                        /\ effstim W (spectrum obj) bp = Ok flux)
         /\ e = flux)
        \/ (as_number (normalization obj) = Some flux /\ effstim_Jy loc = Some e)).
Proof.
  intros Hs. unfold iteration.
  destruct (calcPSF W opts (spectrum obj) rebin kwargs) as [psf|] eqn:Hpsf;
    cbn [rbind]; [|discriminate].
  destruct (normalize W obj opts psf loc) as [scaled|] eqn:Hn;
    cbn [rbind]; [|discriminate].
  destruct (accumulate W image_PA offset_r offset_PA (fst scaled) loc) as [s|] eqn:Ha;
    cbn [rbind]; [|discriminate].
  destruct (provenance W obj opts (fst scaled) (snd scaled) s) as [s'|] eqn:Hp;
    cbn [rbind]; [|discriminate].
  intros [= <-].
  apply normalize_inv in Hn. destruct Hn as (q & qs & flux & -> & Hq & Hflux).
  rewrite Hq in Ha, Hp.
  apply (accumulate_later_inv _ _ _ _ _ Hs) in Ha.
  destruct Ha as (q' & qs' & d & [= <- <-] & Hd & ->).
  apply provenance_inv in Hp.
  destruct Hp as (e & p' & rest' & q' & qs' & r & t & He & [= <- <-]
                  & [= <- <-] & Hr & Ht & ->).
  exists q, qs, flux, e, d, r, t. rewrite He.
  repeat split; try assumption.
  destruct Hflux as [(Hnone & Hbp & Hsnd)|(Hnum & Hsnd)].
  - left. repeat split; [assumption..|congruence].
  - right. split; [assumption|congruence].
Qed.

(** The first iteration: the PSF of the source becomes the accumulator. *)
Lemma iteration_first_inv obj (loc loc' : Locals Image) opts :
  sum_image loc = None ->
  iteration W rebin image_PA offset_r offset_PA kwargs obj loc opts = Ok loc' ->
  exists q qs flux e note r t,
    calcPSF W opts (spectrum obj) rebin kwargs = Ok (q :: qs)
    /\ acquisition_note W offset_r offset_PA = Some note
    /\ fmt_option (fmt_g W 3) "source_offset_r" opts = Ok r
    /\ fmt_option (fmt_f W 1) "source_offset_theta" opts = Ok t
    /\ loc' = mkLocals
         (Some (mkHDU
            (mkHeader (cards (scene_cards image_PA offset_r offset_PA (header q)))
               ((history (header q)
                 ++ ["obssim : Creating an image simulation with multiple PSFs"; note])
                ++ provenance_lines W obj e (img_imul W (data q) flux) r t)%list)
            (img_imul W (data q) flux) :: qs))
         (Some e)
    /\ ((normalization obj = PyNone
         /\ (exists bp, getSynphotBandpass W opts = Ok bp
                        /\ effstim W (spectrum obj) bp = Ok flux)
         /\ e = flux)
        \/ (as_number (normalization obj) = Some flux /\ effstim_Jy loc = Some e)).
Proof.
  intros Hs. unfold iteration.
  destruct (calcPSF W opts (spectrum obj) rebin kwargs) as [psf|] eqn:Hpsf;
    cbn [rbind]; [|discriminate].
  destruct (normalize W obj opts psf loc) as [scaled|] eqn:Hn;
    cbn [rbind]; [|discriminate].
  destruct (accumulate W image_PA offset_r offset_PA (fst scaled) loc) as [s|] eqn:Ha;
    cbn [rbind]; [|discriminate].
  destruct (provenance W obj opts (fst scaled) (snd scaled) s) as [s'|] eqn:Hp;
    cbn [rbind]; [|discriminate].
  intros [= <-].
  apply normalize_inv in Hn. destruct Hn as (q & qs & flux & -> & Hq & Hflux).
  rewrite Hq in Ha, Hp.
  apply (accumulate_first_inv _ _ _ Hs) in Ha.
  destruct Ha as (q' & qs' & note & [= <- <-] & Hnote & ->).
  apply provenance_inv in Hp.
  destruct Hp as (e & p' & rest' & q' & qs' & r & t & He & [= <- <-]
                  & [= <- <-] & Hr & Ht & ->).
  exists q, qs, flux, e, note, r, t. rewrite He.
  repeat split; try assumption.
  destruct Hflux as [(Hnone & Hbp & Hsnd)|(Hnum & Hsnd)].
  - left. repeat split; [assumption..|congruence].
  - right. split; [assumption|congruence].
Qed.

(** X10. A source with a numeric normalization [k] that comes after other
    sources adds [k] times its PSF to the pixels of the primary extension
    and appends its four history lines; the cards of the primary and the
    other extensions of the accumulator stay as they are. The flux written
    into its history line is the one [effstim_Jy] held before, that is the
    flux of the last earlier source without normalization. *)
Theorem later_scalar_source obj (loc loc' : Locals Image) opts p rest e0 k :
  sum_image loc = Some (p :: rest) ->
  effstim_Jy loc = Some e0 ->
  as_number (normalization obj) = Some k ->
  iteration W rebin image_PA offset_r offset_PA kwargs obj loc opts = Ok loc' ->
  exists q qs d r t,
    calcPSF W opts (spectrum obj) rebin kwargs = Ok (q :: qs)
    /\ img_iadd W (data p) (img_imul W (data q) k) = Ok d
    /\ fmt_option (fmt_g W 3) "source_offset_r" opts = Ok r
    /\ fmt_option (fmt_f W 1) "source_offset_theta" opts = Ok t
    /\ loc' = mkLocals
         (Some (mkHDU
            (mkHeader (cards (header p))
               (history (header p)
                ++ provenance_lines W obj e0 (img_imul W (data q) k) r t)%list)
            d :: rest))
         (Some e0).
Proof.
  intros Hs He Hk H. apply (iteration_later_inv _ _ _ _ _ _ Hs) in H.
  destruct H as (q & qs & flux & e & d & r & t & Hpsf & Hd & Hr & Ht & -> & Hf).
  destruct Hf as [(Hnone & _)|(Hnum & He')].
  { rewrite Hnone in Hk. discriminate. }
  assert (flux = k) by congruence. assert (e = e0) by congruence. subst flux e.
  exists q, qs, d, r, t. auto.
Qed.

(** X11. A source without normalization that comes after other sources adds
    its PSF times its own flux in the bandpass, records that flux, and
    leaves it in [effstim_Jy] for the sources that follow. *)
Theorem later_implicit_source obj (loc loc' : Locals Image) opts p rest :
  sum_image loc = Some (p :: rest) ->
  normalization obj = PyNone ->
  iteration W rebin image_PA offset_r offset_PA kwargs obj loc opts = Ok loc' ->
  exists q qs bp e d r t,
    calcPSF W opts (spectrum obj) rebin kwargs = Ok (q :: qs)
    /\ getSynphotBandpass W opts = Ok bp
    /\ effstim W (spectrum obj) bp = Ok e
    /\ img_iadd W (data p) (img_imul W (data q) e) = Ok d
    /\ fmt_option (fmt_g W 3) "source_offset_r" opts = Ok r
    /\ fmt_option (fmt_f W 1) "source_offset_theta" opts = Ok t
    /\ loc' = mkLocals
         (Some (mkHDU
            (mkHeader (cards (header p))
               (history (header p)
                ++ provenance_lines W obj e (img_imul W (data q) e) r t)%list)
            d :: rest))
         (Some e).
Proof.
  intros Hs Hnone H. apply (iteration_later_inv _ _ _ _ _ _ Hs) in H.
  destruct H as (q & qs & flux & e & d & r & t & Hpsf & Hd & Hr & Ht & -> & Hf).
  destruct Hf as [(_ & (bp & Hbp & He) & ->)|(Hnum & _)].
  - exists q, qs, bp, flux, d, r, t. auto 10.
  - rewrite Hnone in Hnum. discriminate.
Qed.

(** Later iterations keep the cards of the primary and the other
    extensions, and add four history lines each. *)
Lemma loop_later_shape objs : forall (loc loc' : Locals Image) st st' p rest,
  sum_image loc = Some (p :: rest) ->
  loop W rebin image_PA offset_r offset_PA kwargs objs loc st = (st', Ok loc') ->
  exists p' added,
    sum_image loc' = Some (p' :: rest)
    /\ cards (header p') = cards (header p)
    /\ history (header p') = (history (header p) ++ added)%list
    /\ length added = (4 * length objs)%nat
    /\ (objs = [] -> p' = p).
Proof.
  induction objs as [|obj objs IH]; intros loc loc' st st' p rest Hs H.
  - injection H as _ <-. exists p, []. rewrite app_nil_r. auto.
  - simpl in H. apply bind_ok in H. destruct H as (st1 & loc1 & Hb & Hl).
    rewrite loop_body_unfold in Hb.
    destruct (resolve_offset image_PA offset_r offset_PA obj) as [off|]; [|discriminate].
    simpl in Hb. injection Hb as _ Hb.
    apply (iteration_later_inv _ _ _ _ _ _ Hs) in Hb.
    destruct Hb as (q & qs & flux & e & d & r & t & _ & _ & _ & _ & -> & _).
    eapply IH in Hl; [|reflexivity].
    destruct Hl as (p' & added & Hs' & Hc & Hh & Hlen & _).
    exists p', (provenance_lines W obj e (img_imul W (data q) flux) r t ++ added)%list.
    cbn [header cards history] in Hc, Hh.
    repeat split; [assumption..| | |discriminate].
    + rewrite Hh, <- app_assoc. reflexivity.
    + rewrite length_app, Hlen. simpl. lia.
Qed.

End Accumulator.

(** ** The composite that [calcImage] returns *)

Section Composite.

Context {Spectrum Bandpass Image Kwargs : Type}.
Variable W : Externals Spectrum Bandpass Image Kwargs.
Variables (noise rebin clobber : bool) (outfile : option string).
Variables (image_PA : R) (offset_r offset_PA : option R) (kwargs : Kwargs).

(** The rebinning step either leaves the extensions alone or swaps the
    last of at least two for a new one. *)
Lemma rebin_step_inv (p : HDU Image) rest s' :
  rebin_step W rebin (p :: rest) = Ok s' ->
  s' = p :: rest \/
  (rebin = true /\
   exists mid last ext, rest = (mid ++ [last])%list /\ s' = (p :: mid ++ [ext])%list).
Proof.
  unfold rebin_step. destruct rebin; [|intros [= <-]; now left].
  cbn [hdu0 rbind].
  destruct (header_get "DET_SAMP" (header p)) as [d|]; cbn [rbind]; [|discriminate].
  destruct (py_gt_one d); [|intros [= <-]; now left].
  destruct rest as [|q rest]; [discriminate|].
  cbn [pop rbind].
  change (removelast (p :: q :: rest)) with (p :: removelast (q :: rest)).
  cbn [hdu0 rbind].
  destruct (header_get "DET_SAMP" (header p)); cbn [rbind]; [|discriminate].
  destruct (rebin_array W _ _ _); cbn [rbind]; [|discriminate].
  destruct (header_get "PIXELSCL" _); cbn [rbind]; [|discriminate].
  destruct (py_mul _ _); cbn [rbind]; [|discriminate].
  intros [= <-]. right. split; [reflexivity|].
  eexists (removelast (q :: rest)), (List.last (q :: rest) q), _.
  split; [|reflexivity].
  apply app_removelast_last. discriminate.
Qed.

(** How a returned composite came about: the first source has no
    normalization, its PSF became the accumulator, and the later sources
    and the final steps changed it as stated. *)
Lemma calcImage_returns_inv self (st st' : Env Image) img :
  calcImage W noise rebin clobber outfile image_PA offset_r offset_PA kwargs self st
    = (st', Ok img) ->
  exists obj objs off q qs bp e note p rest added,
    sources self = obj :: objs
    /\ resolve_offset image_PA offset_r offset_PA obj = Ok off
    /\ calcPSF W (offset_options off (options st)) (spectrum obj) rebin kwargs
       = Ok (q :: qs)
    /\ normalization obj = PyNone
    /\ getSynphotBandpass W (offset_options off (options st)) = Ok bp
    /\ effstim W (spectrum obj) bp = Ok e
    /\ acquisition_note W offset_r offset_PA = Some note
    /\ img = p :: rest
    /\ history (header p)
       = (history (header q)
          ++ "obssim : Creating an image simulation with multiple PSFs"
             :: note :: added)%list
    /\ length added = (4 * length (sources self))%nat
    /\ (forall key, key <> "NSOURCES" -> key <> "FILENAME" ->
          header_get key (header p)
          = header_get key (scene_cards image_PA offset_r offset_PA (header q)))
    /\ (rest = qs \/
        rebin = true /\
        exists mid last ext, qs = (mid ++ [last])%list /\ rest = (mid ++ [ext])%list)
    /\ (objs = [] -> data p = img_imul W (data q) e).
Proof.
  intros H. apply calcImage_ok in H.
  destruct H as (_ & st1 & loc & s0 & s1 & s2 & Hl & Hs & H1 & H2 & H3).
  destruct (sources self) as [|obj objs] eqn:Hsrc.
  { injection Hl as _ <-. discriminate. }
  simpl in Hl. apply bind_ok in Hl. destruct Hl as (st2 & loc1 & Hb & Hl).
  rewrite loop_body_unfold in Hb.
  destruct (resolve_offset image_PA offset_r offset_PA obj) as [off|] eqn:Hoff;
    [|discriminate].
  simpl in Hb. injection Hb as <- Hb.
  apply iteration_first_inv in Hb; [|reflexivity].
  destruct Hb as (q & qs & flux & e & note & r & t & Hpsf & Hnote & _ & _ & -> & Hf).
  destruct Hf as [(Hnone & (bp & Hbp & He) & ->)|(_ & Hf)]; [|discriminate].
  eapply loop_later_shape in Hl; [|reflexivity].
  destruct Hl as (p' & added & Hs' & Hc & Hh & Hlen & Hnil).
  cbn [header cards history] in Hc, Hh.
  rewrite Hs in Hs'. injection Hs' as ->. injection H1 as <-.
  match type of H2 with
  | rebin_step _ _ (?x :: _) = _ => set (p1 := x) in *
  end.
  apply rebin_step_inv in H2.
  assert (Hsave : exists p, img = p :: tl s2 /\ data p = data p'
                            /\ history (header p) = history (header p')
                            /\ (forall key, key <> "NSOURCES" -> key <> "FILENAME" ->
                                  header_get key (header p) = header_get key (header p'))).
  { assert (Hs2 : exists r2, s2 = p1 :: r2).
    { destruct H2 as [E|(_ & mid & last & ext & _ & E)]; rewrite E;
        eexists; reflexivity. }
    destruct Hs2 as [r2 ->]. cbn [hd tl].
    apply save_outcome in H3. destruct H3 as [_ H3].
    destruct outfile as [path|].
    - destruct H3 as (_ & _ & H3). injection H3 as <-.
      eexists. split; [reflexivity|]. repeat split; try reflexivity.
      intros key Hk1 Hk2. unfold p1, on_header. cbn [header].
      now rewrite !header_get_update_ne by congruence.
    - destruct H3 as [_ ->]. exists p1. repeat split; try reflexivity.
      intros key Hk1 Hk2. unfold p1, on_header. cbn [header].
      now rewrite !header_get_update_ne by congruence. }
  destruct Hsave as (p & -> & Hd & Hhist & Hcards).
  exists obj, objs, off, q, qs, bp, flux, note, p, (tl s2),
    (provenance_lines W obj flux (img_imul W (data q) flux) r t ++ added)%list.
  repeat split; try assumption; try reflexivity.
  - rewrite Hhist, Hh, <- !app_assoc. reflexivity.
  - rewrite length_app, Hlen. simpl. lia.
  - intros key Hk1 Hk2. rewrite (Hcards key Hk1 Hk2).
    unfold header_get. now rewrite Hc.
  - destruct H2 as [->|(Hr & mid & last & ext & -> & ->)]; [now left|].
    right. split; [assumption|]. eauto.
  - intros Ho. rewrite Hd, (Hnil Ho). reflexivity.
Qed.

(** X12. [calcImage] returns a composite only for a scene whose first source
    has no normalization: a first source with any normalization, numeric or
    not, makes every call raise, whatever the other sources are. *)
Theorem calcImage_returns_only_for_implicit_first self (st st' : Env Image) img :
  calcImage W noise rebin clobber outfile image_PA offset_r offset_PA kwargs self st
    = (st', Ok img) ->
  noise = false
  /\ exists obj objs, sources self = obj :: objs /\ normalization obj = PyNone.
Proof.
  intros H. split; [apply calcImage_ok in H; apply H|].
  apply calcImage_returns_inv in H.
  destruct H as (obj & objs & off & q & qs & bp & e & note & p & rest & added
                 & Hsrc & _ & _ & Hnone & _).
  eauto.
Qed.

(** X13. The primary header of a returned composite records the scene
    angle in IMAGE_PA and the pointing offset in OFFSET_R and OFFSETPA, the
    integer 0 standing for an offset or an angle that was [None]. *)
Theorem composite_scene_cards self (st st' : Env Image) img :
  calcImage W noise rebin clobber outfile image_PA offset_r offset_PA kwargs self st
    = (st', Ok img) ->
  exists p rest,
    img = p :: rest
    /\ header_get "IMAGE_PA" (header p) = Ok (PyFloat image_PA)
    /\ header_get "OFFSET_R" (header p)
       = Ok (match offset_r with None => PyInt 0 | Some r => PyFloat r end)
    /\ header_get "OFFSETPA" (header p)
       = Ok (match offset_PA with None => PyInt 0 | Some a => PyFloat a end).
Proof.
  intros H. apply calcImage_returns_inv in H.
  destruct H as (obj & objs & off & q & qs & bp & e & note & p & rest & added
                 & _ & _ & _ & _ & _ & _ & _ & -> & _ & _ & Hc & _).
  exists p, rest. split; [reflexivity|].
  rewrite !Hc by discriminate. unfold scene_cards. repeat split.
  - rewrite !header_get_update_ne by discriminate. apply header_get_update_eq.
  - rewrite header_get_update_ne by discriminate. apply header_get_update_eq.
  - apply header_get_update_eq.
Qed.

(** X14. The history of a returned composite is the history the simulator
    gave the PSF of the first source, followed by the creation line, the
    line about the acquisition, and four lines for each source. *)
Theorem composite_history self (st st' : Env Image) img :
  calcImage W noise rebin clobber outfile image_PA offset_r offset_PA kwargs self st
    = (st', Ok img) ->
  exists obj objs off q qs note p rest added,
    sources self = obj :: objs
    /\ resolve_offset image_PA offset_r offset_PA obj = Ok off
    /\ calcPSF W (offset_options off (options st)) (spectrum obj) rebin kwargs
       = Ok (q :: qs)
    /\ acquisition_note W offset_r offset_PA = Some note
    /\ img = p :: rest
    /\ history (header p)
       = (history (header q)
          ++ "obssim : Creating an image simulation with multiple PSFs"
             :: note :: added)%list
    /\ length added = (4 * length (sources self))%nat.
Proof.
  intros H. apply calcImage_returns_inv in H.
  destruct H as (obj & objs & off & q & qs & bp & e & note & p & rest & added
                 & Hsrc & Hoff & Hpsf & _ & _ & _ & Hnote & Himg & Hh & Hlen & _).
  exists obj, objs, off, q, qs, note, p, rest, added. auto 10.
Qed.

(** X15. Only the primary extension accumulates: the further extensions of
    a returned composite are those of the PSF of the first source, except
    that the rebinning step, when it fires, replaces the last of them. The
    composite has as many extensions as that PSF, and with [rebin = False]
    exactly its further extensions. *)
Theorem composite_extensions self (st st' : Env Image) img :
  calcImage W noise rebin clobber outfile image_PA offset_r offset_PA kwargs self st
    = (st', Ok img) ->
  exists obj objs off q qs p rest,
    sources self = obj :: objs
    /\ resolve_offset image_PA offset_r offset_PA obj = Ok off
    /\ calcPSF W (offset_options off (options st)) (spectrum obj) rebin kwargs
       = Ok (q :: qs)
    /\ img = p :: rest
    /\ length img = length (q :: qs)
    /\ (rebin = false -> rest = qs)
    /\ (rest = qs \/
        exists mid last ext, qs = (mid ++ [last])%list /\ rest = (mid ++ [ext])%list).
Proof.
  intros H. apply calcImage_returns_inv in H.
  destruct H as (obj & objs & off & q & qs & bp & e & note & p & rest & added
                 & Hsrc & Hoff & Hpsf & _ & _ & _ & _ & Himg & _ & _ & _ & Hr & _).
  exists obj, objs, off, q, qs, p, rest.
  repeat split; try assumption.
  - rewrite Himg. simpl. f_equal.
    destruct Hr as [->|(_ & mid & last & ext & -> & ->)]; [reflexivity|].
    now rewrite !length_app.
  - intros Hf. destruct Hr as [Hr|(Ht & _)]; [exact Hr|congruence].
  - destruct Hr as [Hr|(_ & Hr)]; auto.
Qed.

(** X16. For a scene of one source without normalization the pixels of the
    primary extension of the returned composite are the pixels of the PSF
    of that source times its flux through the bandpass. *)
Theorem single_implicit_source_pixels obj (st st' : Env Image) img :
  calcImage W noise rebin clobber outfile image_PA offset_r offset_PA kwargs
    (mkScene [obj]) st = (st', Ok img) ->
  exists off q qs bp e p rest,
    resolve_offset image_PA offset_r offset_PA obj = Ok off
    /\ calcPSF W (offset_options off (options st)) (spectrum obj) rebin kwargs
       = Ok (q :: qs)
    /\ getSynphotBandpass W (offset_options off (options st)) = Ok bp
    /\ effstim W (spectrum obj) bp = Ok e
    /\ img = p :: rest
    /\ data p = img_imul W (data q) e.
Proof.
  intros H. apply calcImage_returns_inv in H.
  destruct H as (obj' & objs & off & q & qs & bp & e & note & p & rest & added
                 & Hsrc & Hoff & Hpsf & _ & Hbp & He & _ & Himg & _ & _ & _ & _ & Hd).
  simpl in Hsrc. injection Hsrc as <- <-.
  exists off, q, qs, bp, e, p, rest. repeat split; try assumption.
  now apply Hd.
Qed.

End Composite.

(** ** The rebinning step *)

Section RebinningStep.

Context {Spectrum Bandpass Image Kwargs : Type}.
Variable W : Externals Spectrum Bandpass Image Kwargs.

(** What a successful rebinning step with [rebin = True] did. *)
Lemma rebin_step_true_inv (p : HDU Image) rest s' :
  rebin_step W true (p :: rest) = Ok s' ->
  exists d,
    header_get "DET_SAMP" (header p) = Ok d
    /\ ((py_gt_one d = false /\ s' = p :: rest)
        \/ (py_gt_one d = true
            /\ exists mid last newdata scale scaled,
                 rest = (mid ++ [last])%list
                 /\ rebin_array W (data p) d d = Ok newdata
                 /\ header_get "PIXELSCL" (header p) = Ok scale
                 /\ py_mul scale d = Ok scaled
                 /\ s' = (p :: mid
                          ++ [mkHDU (rebinned_header d scaled (header p)) newdata])%list)).
Proof.
  unfold rebin_step. cbn [hdu0 rbind].
  destruct (header_get "DET_SAMP" (header p)) as [d|] eqn:Hd; cbn [rbind];
    [|discriminate].
  destruct (py_gt_one d) eqn:Hgt; [|intros [= <-]; exists d; auto].
  destruct rest as [|q rest]; [discriminate|].
  cbn [pop rbind].
  change (removelast (p :: q :: rest)) with (p :: removelast (q :: rest)).
  cbn [hdu0 rbind]. rewrite Hd. cbn [rbind].
  destruct (rebin_array W (data p) d d) as [newdata|] eqn:Hnew; cbn [rbind];
    [|discriminate].
  rewrite !header_get_update_ne by discriminate.
  destruct (header_get "PIXELSCL" (header p)) as [scale|] eqn:Hs; cbn [rbind];
    [|discriminate].
  destruct (py_mul scale d) as [scaled|] eqn:Hm; cbn [rbind]; [|discriminate].
  intros [= <-]. exists d. split; [reflexivity|]. right. split; [exact Hgt|].
  exists (removelast (q :: rest)), (List.last (q :: rest) q), newdata, scale, scaled.
  repeat split; try assumption.
  apply app_removelast_last. discriminate.
Qed.

Lemma rebin_step_fires (p : HDU Image) mid last d scale scaled newdata :
  header_get "DET_SAMP" (header p) = Ok d ->
  py_gt_one d = true ->
  rebin_array W (data p) d d = Ok newdata ->
  header_get "PIXELSCL" (header p) = Ok scale ->
  py_mul scale d = Ok scaled ->
  rebin_step W true (p :: mid ++ [last])%list
  = Ok (p :: mid ++ [mkHDU (rebinned_header d scaled (header p)) newdata])%list.
Proof.
  intros Hd Hgt Hnew Hscale Hmul.
  unfold rebin_step. cbn [hdu0 rbind]. rewrite Hd. cbn [rbind]. rewrite Hgt.
  assert (Hpop : pop (p :: mid ++ [last])%list = Ok (p :: mid)).
  { unfold pop. f_equal.
    change (p :: mid ++ [last])%list with ((p :: mid) ++ [last])%list.
    apply removelast_last. }
  rewrite Hpop. cbn [hdu0 rbind]. rewrite Hd. cbn [rbind].
  rewrite Hnew. cbn [rbind].
  rewrite !header_get_update_ne by discriminate.
  rewrite Hscale. cbn [rbind]. rewrite Hmul. reflexivity.
Qed.

(** X17. The rebinning step does not stack extensions: applied to its own
    result it gives that result again. *)
Theorem rebin_step_idempotent rebin (s s' : list (HDU Image)) :
  rebin_step W rebin s = Ok s' -> rebin_step W rebin s' = Ok s'.
Proof.
  destruct rebin; [|intros [= <-]; reflexivity].
  intros H. destruct s as [|p rest]; [discriminate|].
  pose proof H as H'. apply rebin_step_true_inv in H'.
  destruct H' as (d & Hd & [(Hgt & ->)|(Hgt & mid & last & newdata & scale & scaled
                                        & -> & Hnew & Hs & Hm & ->)]).
  - exact H.
  - apply (rebin_step_fires p mid _ d scale scaled newdata); assumption.
Qed.

Variables (noise clobber : bool) (outfile : option string).
Variables (image_PA : R) (offset_r offset_PA : option R) (kwargs : Kwargs).

(** X18. A composite returned with [rebin = True] has a DET_SAMP card in
    its primary header; when its value is greater than 1 the last extension
    of the composite is the rebinned one: its pixels are those of the
    returned primary passed through [rebin_array], its header has
    EXTNAME = 'DET_SAMP', OVERSAMP = 1, CALCSAMP = DET_SAMP and NSOURCES,
    and its history is the history of the primary. *)
Theorem composite_rebinned_extension self (st st' : Env Image) img :
  calcImage W noise true clobber outfile image_PA offset_r offset_PA kwargs self st
    = (st', Ok img) ->
  exists p rest d,
    img = p :: rest
    /\ header_get "DET_SAMP" (header p) = Ok d
    /\ (py_gt_one d = true ->
        exists mid ext,
          rest = (mid ++ [ext])%list
          /\ rebin_array W (data p) d d = Ok (data ext)
          /\ header_get "EXTNAME" (header ext) = Ok (PyStr "DET_SAMP")
          /\ header_get "OVERSAMP" (header ext) = Ok (PyInt 1)
          /\ header_get "CALCSAMP" (header ext) = Ok d
          /\ header_get "NSOURCES" (header ext)
             = Ok (PyInt (Z.of_nat (length (sources self))))
          /\ history (header ext) = history (header p)).
Proof.
  intros H. apply calcImage_ok in H.
  destruct H as (_ & st1 & loc & s0 & s1 & s2 & _ & _ & H1 & H2 & H3).
  destruct s0 as [|p0 rest0]; [discriminate|]. injection H1 as <-.
  match type of H2 with
  | rebin_step _ _ (?x :: _) = _ => set (p1 := x) in *
  end.
  apply rebin_step_true_inv in H2. destruct H2 as (d & Hd & H2).
  assert (Hs2 : exists r2, s2 = p1 :: r2).
  { destruct H2 as [(_ & E)|(_ & mid & last & nd & sc & scd & _ & _ & _ & _ & E)];
      rewrite E; eexists; reflexivity. }
  destruct Hs2 as [r2 Hs2].
  assert (Hsave : exists p, img = p :: r2 /\ data p = data p1
                            /\ history (header p) = history (header p1)
                            /\ header_get "DET_SAMP" (header p)
                               = header_get "DET_SAMP" (header p1)).
  { subst s2. apply save_outcome in H3. destruct H3 as [_ H3].
    destruct outfile as [path|].
    - destruct H3 as (_ & _ & H3). injection H3 as <-.
      eexists. split; [reflexivity|]. repeat split; try reflexivity.
      unfold on_header. cbn [header].
      now rewrite header_get_update_ne by discriminate.
    - destruct H3 as [_ ->]. exists p1. auto. }
  destruct Hsave as (p & -> & Hdata & Hhist & Hdet).
  exists p, r2, d. split; [reflexivity|]. split; [congruence|].
  intros Hgt.
  destruct H2 as [(Hf & _)|(_ & mid & last & nd & sc & scd & _ & Hnew & _ & _ & E)];
    [congruence|].
  rewrite Hs2 in E. injection E as ->.
  eexists mid, _. split; [reflexivity|]. cbn [data header].
  unfold rebinned_header. repeat split.
  - now rewrite Hdata.
  - rewrite header_get_update_ne by discriminate. apply header_get_update_eq.
  - rewrite !header_get_update_ne by discriminate. apply header_get_update_eq.
  - rewrite !header_get_update_ne by discriminate. apply header_get_update_eq.
  - rewrite !header_get_update_ne by discriminate. unfold p1, on_header.
    cbn [header]. apply header_get_update_eq.
  - now rewrite Hhist.
Qed.

End RebinningStep.

(** ** The geometry of the pointing offset *)

Section PolarForm.

Local Open Scope R_scope.

Context {Spectrum : Type}.

(** X20. The combination is symmetric in the source and the pointing
    offset: a source at the place of the offset, seen with an offset equal
    to the position of the source, resolves to the same offset. *)
Theorem resolve_offset_symmetric (image_PA : R) (obj1 obj2 : Source Spectrum) :
  resolve_offset image_PA (Some (separation obj2)) (Some (PA obj2)) obj1
  = resolve_offset image_PA (Some (separation obj1)) (Some (PA obj1)) obj2.
Proof.
  unfold resolve_offset.
  rewrite (Rplus_comm (separation obj1 * cos _)).
  rewrite (Rplus_comm (separation obj1 * sin _)).
  reflexivity.
Qed.

End PolarForm.

(** ** The display helper *)

Section DisplayProperties.

Context {Spectrum Bandpass Image Kwargs : Type}.
Variable W : Externals Spectrum Bandpass Image Kwargs.

Lemma display_fold (objs : list (Source Spectrum)) : forall figure,
  fold_left
    (fun figure obj =>
       (figure ++ [Plot [fst (plot_position obj)] [snd (plot_position obj)] "*";
                   Text (fst (plot_position obj)) (snd (plot_position obj))
                     (name obj)])%list)
    objs figure
  = (figure
     ++ flat_map (fun obj =>
          [Plot [fst (plot_position obj)] [snd (plot_position obj)] "*";
           Text (fst (plot_position obj)) (snd (plot_position obj)) (name obj)])
        objs)%list.
Proof.
  induction objs as [|obj objs IH]; intros figure; simpl.
  - now rewrite app_nil_r.
  - rewrite IH, <- app_assoc. reflexivity.
Qed.

(** X22. [display] starts from a cleared figure, so what was drawn before
    does not matter and drawing twice shows the scene once; it draws a
    marker and a label per source in the order of the scene, so that after
    a successful [addPointSource] the figure is the earlier one followed by
    the marker and the label of the new source. *)
Theorem display_after_add sptype_or_spectrum name separation PA normalization
    (self self' : TargetScene Spectrum) (figure figure' : list artist) :
  addPointSource W sptype_or_spectrum name separation PA normalization self
    = (self', Ok tt) ->
  display self figure = display self []
  /\ display self (display self figure) = display self figure
  /\ length (display self figure) = (2 * length (sources self))%nat
  /\ display self' figure'
     = (display self figure
        ++ [Plot [(separation * - sin (PA * PI / 180))%R]
                 [(separation * cos (PA * PI / 180))%R] "*";
            Text (separation * - sin (PA * PI / 180))%R
                 (separation * cos (PA * PI / 180))%R name])%list.
Proof.
  intros Hadd. split; [reflexivity|]. split; [reflexivity|]. split.
  - unfold display. rewrite display_fold. cbn [app].
    induction (sources self) as [|obj objs IH]; [reflexivity|].
    cbn [flat_map app length] in *. lia.
  - assert (Hs : sources self'
                 = (sources self
                    ++ [mkSource sptype_or_spectrum separation PA normalization name])%list).
    { unfold addPointSource in Hadd.
      destruct sptype_or_spectrum as [s|sp].
      - destruct (specFromSpectralType W s false); cbn [rbind] in Hadd;
          [|discriminate].
        now injection Hadd as <-.
      - now injection Hadd as <-. }
    unfold display. rewrite Hs, fold_left_app. reflexivity.
Qed.

End DisplayProperties.

(** ** The demonstration *)

Section DriverProperties.

Context {Spectrum Bandpass Image Kwargs : Type}.
Variable W : Externals Spectrum Bandpass Image Kwargs.
Variable NIRCam : result (Instrument Spectrum Bandpass Image Kwargs).
Variable test_kwargs : Z -> Kwargs.

Lemma then_add_ok sptype_or_spectrum name separation PA normalization
    (s : result (TargetScene Spectrum)) self' :
  then_add W sptype_or_spectrum name separation PA normalization s = Ok self' ->
  exists self,
    s = Ok self
    /\ sources self'
       = (sources self
          ++ [mkSource sptype_or_spectrum separation PA normalization name])%list.
Proof.
  unfold then_add. destruct s as [self|]; cbn [rbind]; [|discriminate].
  unfold addPointSource.
  destruct (match sptype_or_spectrum with
            | inl s => _
            | inr _ => _
            end); [|discriminate].
  intros [= <-]. eauto.
Qed.

(** On a scene whose first source is normalized, the loop over the filters
    writes nothing and ends normally only if it had nothing to do. *)
Lemma for_filters_writes_nothing inst (s : TargetScene Spectrum) obj objs
    nlambda clobber filters : forall (st st' : Env Image) r,
  sources s = obj :: objs -> normalization obj <> PyNone ->
  for_filters W test_kwargs inst s nlambda clobber filters st = (st', r) ->
  files st' = files st
  /\ (r = Ok tt ->
      Forall (fun filt =>
                clobber = false
                /\ is_Some (files st !! ("test_scene_" ++ filt ++ ".fits")))
        filters).
Proof.
  induction filters as [|filt filters IH]; intros st st' r Hs Hn H.
  - injection H as <- <-. auto.
  - simpl in H. unfold bind, lift, path_exists in H.
    destruct (inst_set_filter inst filt); [|injection H as <- <-; split;
                                            [reflexivity|discriminate]].
    destruct (files st !! ("test_scene_" ++ filt ++ ".fits")) as [old|] eqn:Hf;
      cbn [negb orb] in H.
    + destruct clobber.
      * destruct (calcImage _ _ _ _ _ _ _ _ _ s st) as [st1 [img|e]] eqn:Hc.
        { apply calcImage_returns_inv in Hc.
          destruct Hc as (obj' & objs' & off & q & qs & bp & e & note & p & rest
                          & added & Hsrc & _ & _ & Hnone & _).
          rewrite Hs in Hsrc. injection Hsrc as <- _. contradiction. }
        injection H as <- <-. split; [|discriminate].
        apply calcImage_outcome in Hc. destruct Hc as (_ & _ & _ & _ & Hc). exact Hc.
      * unfold ret in H at 1. apply IH in H; [|assumption..].
        destruct H as [H1 H2]. split; [exact H1|].
        intros Hr. constructor; [rewrite Hf; eauto|exact (H2 Hr)].
    + destruct (calcImage _ _ _ _ _ _ _ _ _ s st) as [st1 [img|e]] eqn:Hc.
      { apply calcImage_returns_inv in Hc.
        destruct Hc as (obj' & objs' & off & q & qs & bp & e & note & p & rest
                        & added & Hsrc & _ & _ & Hnone & _).
        rewrite Hs in Hsrc. injection Hsrc as <- _. contradiction. }
      injection H as <- <-. split; [|discriminate].
      apply calcImage_outcome in Hc. destruct Hc as (_ & _ & _ & _ & Hc). exact Hc.
Qed.

(** X24. [test_obssim] writes no file. Its first source is scaled by 1.0, so
    every call of [calcImage] it makes raises; it ends normally only when
    [clobber] is false and the three output files are already there, in
    which case it calls neither. *)
Theorem test_obssim_writes_nothing nlambda clobber
    (fs fs' : gmap string (list (HDU Image))) r :
  test_obssim W NIRCam test_kwargs nlambda clobber fs = (fs', r) ->
  fs' = fs
  /\ (r = Ok tt ->
      clobber = false
      /\ is_Some (fs !! "test_scene_F115W.fits")
      /\ is_Some (fs !! "test_scene_F210M.fits")
      /\ is_Some (fs !! "test_scene_F360M.fits")).
Proof.
  unfold test_obssim.
  destruct (then_add W (inl "M0V") _ _ _ _ _) as [s|e] eqn:H3;
    [|intros [= <- <-]; split; [reflexivity|discriminate]].
  apply then_add_ok in H3. destruct H3 as (s2 & H2 & Hs3).
  apply then_add_ok in H2. destruct H2 as (s1 & H1 & Hs2).
  apply then_add_ok in H1. destruct H1 as (s0 & [= <-] & Hs1).
  rewrite Hs2, Hs1 in Hs3. cbn [init sources app] in Hs3.
  destruct NIRCam as [inst|e];
    [|intros [= <- <-]; split; [reflexivity|discriminate]].
  destruct (for_filters W test_kwargs inst s nlambda clobber _ _) as [st' r'] eqn:Hf.
  cbn [fst snd]. intros [= <- <-].
  eapply for_filters_writes_nothing in Hf; [|exact Hs3|discriminate].
  cbn [files] in Hf. destruct Hf as [Hf Hr]. split; [exact Hf|].
  intros E. specialize (Hr E).
  inversion_clear Hr as [|? ? [Hc Ha] Hr']. inversion_clear Hr' as [|? ? [_ Hb] Hr].
  inversion_clear Hr as [|? ? [_ Hd] _]. auto.
Qed.

End DriverProperties.

(** ** The further properties on the concrete world *)

(** Adding a "G0V" star to the scene of [test_obssim]. *)
Lemma addPointSource_outcome_witness :
  dict_get String.eqb lookuptable "G0V" = Some (6000%Z, 0%Q, 45 # 10) /\
  addPointSource Demo.world (inl "G0V") "star" 2 90 PyNone Demo.test_scene
  = (mkScene (sources Demo.test_scene
              ++ [mkSource (inl "G0V") 2 90 PyNone "star"])%list, Ok tt).
Proof.
  split; [reflexivity|].
  apply (proj1 (addPointSource_outcome Demo.world "star" 2 90 PyNone Demo.test_scene)
           "G0V" 6000%Z 0%Q (45 # 10) eq_refl).
Defined.


(** A late B dwarf sorts before an early A supergiant. *)
Lemma sort_sptype_class_then_digit_witness :
  sort_sptype "B8V" = Ok (inject_Z 10 + inject_Z 8 + (5 # 10))%Q /\
  sort_sptype "A0I" = Ok (inject_Z 20 + inject_Z 0 + (1 # 10))%Q /\
  (inject_Z 10 + inject_Z 8 + (5 # 10) < inject_Z 20 + inject_Z 0 + (1 # 10))%Q.
Proof.
  split; [reflexivity|]. split; [reflexivity|].
  apply (sort_sptype_class_then_digit "B"%char "8"%char "V" "A"%char "0"%char "I"
           10 20 8 0 _ _
           eq_refl eq_refl eq_refl eq_refl eq_refl eq_refl).
  left. reflexivity.
Defined.

(** The scene of [test_obssim] with an output file requested: the call
    raises and writes nothing. *)
Lemma calcImage_writes_only_on_return_witness :
  exists st' e,
    calcImage Demo.world false true true (Some "scene.fits") 0 None (Some 0%R) tt
      Demo.test_scene Demo.env0 = (st', Raise e)
    /\ files st' = files Demo.env0.
Proof.
  destruct (calcImage Demo.world false true true (Some "scene.fits") 0 None
              (Some 0%R) tt Demo.test_scene Demo.env0) as [st' [img|e]] eqn:H.
  - vm_compute in H. discriminate H.
  - exists st', e. split; [reflexivity|].
    apply (calcImage_writes_only_on_return Demo.world false true true
             (Some "scene.fits") 0 None (Some 0%R) tt Demo.test_scene Demo.env0
             st' (Raise e) H).
    right. exists e. reflexivity.
Defined.

(** A scene that is composed and saved. *)
Lemma calcImage_saves_composite_witness :
  exists st' img,
    calcImage Demo.world false true true (Some "out/scene.fits") 0 None (Some 0%R) tt
      Demo.mixed_scene Demo.env0 = (st', Ok img)
    /\ files st' !! "out/scene.fits" = Some img
    /\ exists p rest,
         img = p :: rest
         /\ header_get "FILENAME" (header p) = Ok (PyStr "scene.fits").
Proof.
  destruct (calcImage Demo.world false true true (Some "out/scene.fits") 0 None
              (Some 0%R) tt Demo.mixed_scene Demo.env0) as [st' [img|e]] eqn:H.
  - exists st', img. split; [reflexivity|].
    destruct (calcImage_saves_composite Demo.world false true 0 None (Some 0%R) tt
                true "out/scene.fits" Demo.mixed_scene Demo.env0 st' img H)
      as (H1 & _ & H3).
    split; [exact H1|exact H3].
  - vm_compute in H. discriminate H.
Defined.

(** The output file is there and [clobber] is false. *)
Lemma calcImage_keeps_existing_file_witness :
  files DemoRun.env_with_file !! "scene.fits" = Some Demo.unit_psf /\
  exists st' r,
    calcImage Demo.world false true false (Some "scene.fits") 0 None (Some 0%R) tt
      Demo.mixed_scene DemoRun.env_with_file = (st', r)
    /\ files st' = files DemoRun.env_with_file
    /\ forall img, r <> Ok img.
Proof.
  split; [reflexivity|].
  destruct (calcImage Demo.world false true false (Some "scene.fits") 0 None
              (Some 0%R) tt Demo.mixed_scene DemoRun.env_with_file)
    as [st' r] eqn:H.
  exists st', r. split; [reflexivity|].
  apply (calcImage_keeps_existing_file Demo.world false true 0 None (Some 0%R) tt
           "scene.fits" Demo.mixed_scene DemoRun.env_with_file st' Demo.unit_psf r
           eq_refl H).
Defined.

(** The options of the caller other than the two offsets, after a call. *)
Lemma calcImage_options_frame_witness :
  exists st' r,
    calcImage Demo.world false true true None 0 None (Some 0%R) tt
      Demo.mixed_scene (mkEnv (<["jitter" := PyNone]> ∅) ∅) = (st', r)
    /\ options st' !! "jitter" = Some PyNone.
Proof.
  destruct (calcImage Demo.world false true true None 0 None (Some 0%R) tt
              Demo.mixed_scene (mkEnv (<["jitter" := PyNone]> ∅) ∅))
    as [st' r] eqn:H.
  exists st', r. split; [reflexivity|].
  destruct (calcImage_options_frame Demo.world false true true None 0 None
              (Some 0%R) tt Demo.mixed_scene _ st' r H) as [Hf _].
  rewrite (Hf "jitter"); [reflexivity|discriminate|discriminate].
Defined.

(** A simulator that fails at the first source. *)
Lemma calcImage_simulator_error_witness :
  calcPSF DemoRun.broken_world (offset_options (0, 0 - 0)%R ∅) (inl "G0V") true tt
    = Raise (ExternalError "no such filter") /\
  calcImage DemoRun.broken_world false true true (Some "scene.fits") 0 None
    (Some 0%R) tt Demo.mixed_scene Demo.env0
  = (mkEnv (offset_options (0, 0 - 0)%R ∅) ∅, Raise (ExternalError "no such filter")).
Proof.
  split; [reflexivity|].
  apply (calcImage_simulator_error DemoRun.broken_world false true 0 None (Some 0%R)
           tt true (Some "scene.fits") (Demo.source "G0V" "primary" 0 0 PyNone)
           _ Demo.env0 (0, 0 - 0)%R (ExternalError "no such filter")
           eq_refl eq_refl).
Defined.

(** A companion scaled by 0.4 after a primary of flux 2 Jy: the history
    line of the companion reports 2 Jy. *)
Lemma later_scalar_source_witness :
  exists loc',
    iteration Demo.world true 0 None (Some 0%R) tt DemoRun.companion
      DemoRun.after_primary DemoRun.companion_options = Ok loc'
    /\ effstim_Jy loc' = Some 2%R.
Proof.
  destruct (iteration Demo.world true 0 None (Some 0%R) tt DemoRun.companion
              DemoRun.after_primary DemoRun.companion_options) as [loc'|e] eqn:H.
  - exists loc'. split; [reflexivity|].
    destruct (later_scalar_source Demo.world true 0 None (Some 0%R) tt
                DemoRun.companion DemoRun.after_primary loc'
                DemoRun.companion_options _ _ 2%R (4 / 10)%R
                eq_refl eq_refl eq_refl H)
      as (q & qs & d & r & t & _ & _ & _ & _ & ->).
    reflexivity.
  - vm_compute in H. discriminate H.
Defined.

(** A companion without normalization after a primary. *)
Lemma later_implicit_source_witness :
  exists loc',
    iteration Demo.world true 0 None (Some 0%R) tt DemoRun.implicit_companion
      DemoRun.after_primary DemoRun.companion_options = Ok loc'
    /\ exists e, effstim Demo.world (inl "M0V") tt = Ok e /\ effstim_Jy loc' = Some e.
Proof.
  destruct (iteration Demo.world true 0 None (Some 0%R) tt DemoRun.implicit_companion
              DemoRun.after_primary DemoRun.companion_options) as [loc'|e] eqn:H.
  - exists loc'. split; [reflexivity|].
    destruct (later_implicit_source Demo.world true 0 None (Some 0%R) tt
                DemoRun.implicit_companion DemoRun.after_primary loc'
                DemoRun.companion_options _ _ eq_refl eq_refl H)
      as (q & qs & [] & e & d & r & t & _ & _ & He & _ & _ & _ & ->).
    exists e. split; [exact He|reflexivity].
  - vm_compute in H. discriminate H.
Defined.

(** The scene with an implicit primary, on which [calcImage] returns. *)
Lemma calcImage_returns_only_for_implicit_first_witness :
  exists st' img,
    calcImage Demo.world false true true None 0 None (Some 0%R) tt
      Demo.mixed_scene Demo.env0 = (st', Ok img)
    /\ exists obj objs,
         sources Demo.mixed_scene = obj :: objs /\ normalization obj = PyNone.
Proof.
  destruct (calcImage Demo.world false true true None 0 None (Some 0%R) tt
              Demo.mixed_scene Demo.env0) as [st' [img|e]] eqn:H.
  - exists st', img. split; [reflexivity|].
    exact (proj2 (calcImage_returns_only_for_implicit_first Demo.world false true true
                    None 0 None (Some 0%R) tt Demo.mixed_scene Demo.env0 st' img H)).
  - vm_compute in H. discriminate H.
Defined.

(** The cards of a composite made at a scene angle of 30 degrees. *)
Lemma composite_scene_cards_witness :
  exists st' img,
    calcImage Demo.world false true true None 30 None (Some 0%R) tt
      Demo.mixed_scene Demo.env0 = (st', Ok img)
    /\ exists p rest,
         img = p :: rest
         /\ header_get "IMAGE_PA" (header p) = Ok (PyFloat 30)
         /\ header_get "OFFSET_R" (header p) = Ok (PyInt 0)
         /\ header_get "OFFSETPA" (header p) = Ok (PyFloat 0).
Proof.
  destruct (calcImage Demo.world false true true None 30 None (Some 0%R) tt
              Demo.mixed_scene Demo.env0) as [st' [img|e]] eqn:H.
  - exists st', img. split; [reflexivity|].
    exact (composite_scene_cards Demo.world false true true None 30 None (Some 0%R)
             tt Demo.mixed_scene Demo.env0 st' img H).
  - vm_compute in H. discriminate H.
Defined.

(** The history of the composite of two sources: the line of the
    simulator, two lines about the scene, eight about the sources. *)
Lemma composite_history_witness :
  exists st' img,
    calcImage Demo.world false true true None 0 None (Some 0%R) tt
      Demo.mixed_scene Demo.env0 = (st', Ok img)
    /\ exists p rest added,
         img = p :: rest
         /\ history (header p)
            = ("Calculated PSF"
               :: "obssim : Creating an image simulation with multiple PSFs"
               :: "Image is centered on target (perfect acquisition)" :: added)
         /\ length added = 8%nat.
Proof.
  destruct (calcImage Demo.world false true true None 0 None (Some 0%R) tt
              Demo.mixed_scene Demo.env0) as [st' [img|e]] eqn:H.
  - exists st', img. split; [reflexivity|].
    destruct (composite_history Demo.world false true true None 0 None (Some 0%R)
                tt Demo.mixed_scene Demo.env0 st' img H)
      as (obj & objs & off & q & qs & note & p & rest & added
          & _ & _ & Hpsf & Hnote & Himg & Hh & Hlen).
    injection Hpsf as <- _. injection Hnote as <-.
    exists p, rest, added. split; [exact Himg|]. split; [exact Hh|exact Hlen].
  - vm_compute in H. discriminate H.
Defined.

(** Without rebinning the second extension of the composite is the one of
    the first PSF. *)
Lemma composite_extensions_witness :
  exists st' img,
    calcImage Demo.world false false true None 0 None (Some 0%R) tt
      Demo.mixed_scene Demo.env0 = (st', Ok img)
    /\ exists p, img = p :: tl Demo.unit_psf.
Proof.
  destruct (calcImage Demo.world false false true None 0 None (Some 0%R) tt
              Demo.mixed_scene Demo.env0) as [st' [img|e]] eqn:H.
  - exists st', img. split; [reflexivity|].
    destruct (composite_extensions Demo.world false false true None 0 None (Some 0%R)
                tt Demo.mixed_scene Demo.env0 st' img H)
      as (obj & objs & off & q & qs & p & rest & _ & _ & Hpsf & Himg & _ & Hr & _).
    injection Hpsf as _ <-. exists p. rewrite Himg, (Hr eq_refl). reflexivity.
  - vm_compute in H. discriminate H.
Defined.

(** One source of flux 2 Jy: the pixels of its PSF are doubled. *)
Lemma single_implicit_source_pixels_witness :
  exists st' img,
    calcImage Demo.world false true true None 0 None (Some 0%R) tt
      (mkScene [Demo.source "G0V" "primary" 0 0 PyNone]) Demo.env0 = (st', Ok img)
    /\ exists p rest,
         img = p :: rest /\ data p = Demo.imul [[1; 3]; [5; 7]]%R 2.
Proof.
  destruct (calcImage Demo.world false true true None 0 None (Some 0%R) tt
              (mkScene [Demo.source "G0V" "primary" 0 0 PyNone]) Demo.env0)
    as [st' [img|e]] eqn:H.
  - exists st', img. split; [reflexivity|].
    destruct (single_implicit_source_pixels Demo.world false true true None 0 None
                (Some 0%R) tt (Demo.source "G0V" "primary" 0 0 PyNone)
                Demo.env0 st' img H)
      as (off & q & qs & bp & e & p & rest & _ & Hpsf & _ & He & Himg & Hd).
    injection Hpsf as <- _. injection He as <-.
    exists p, rest. split; [exact Himg|exact Hd].
  - vm_compute in H. discriminate H.
Defined.

(** Rebinning the PSF of the stand-in simulator twice. *)
Lemma rebin_step_idempotent_witness :
  exists s',
    rebin_step Demo.world true Demo.unit_psf = Ok s'
    /\ rebin_step Demo.world true s' = Ok s'.
Proof.
  destruct (rebin_step Demo.world true Demo.unit_psf) as [s'|e] eqn:H.
  - exists s'. split; [reflexivity|].
    exact (rebin_step_idempotent Demo.world true Demo.unit_psf s' H).
  - vm_compute in H. discriminate H.
Defined.

(** The rebinned extension of the composite of two sources. *)
Lemma composite_rebinned_extension_witness :
  exists st' img,
    calcImage Demo.world false true true None 0 None (Some 0%R) tt
      Demo.mixed_scene Demo.env0 = (st', Ok img)
    /\ exists p rest d,
         img = p :: rest
         /\ header_get "DET_SAMP" (header p) = Ok d
         /\ (py_gt_one d = true ->
             exists mid ext,
               rest = (mid ++ [ext])%list
               /\ header_get "NSOURCES" (header ext) = Ok (PyInt 2)).
Proof.
  destruct (calcImage Demo.world false true true None 0 None (Some 0%R) tt
              Demo.mixed_scene Demo.env0) as [st' [img|e]] eqn:H.
  - exists st', img. split; [reflexivity|].
    destruct (composite_rebinned_extension Demo.world false true None 0 None
                (Some 0%R) tt Demo.mixed_scene Demo.env0 st' img H)
      as (p & rest & d & Himg & Hd & Hext).
    exists p, rest, d. split; [exact Himg|]. split; [exact Hd|].
    intros Hgt. destruct (Hext Hgt) as (mid & ext & Hr & _ & _ & _ & _ & Hn & _).
    exists mid, ext. split; [exact Hr|exact Hn].
  - vm_compute in H. discriminate H.
Defined.

(** The figure of the scene of [test_obssim] after one more star is added. *)
Lemma display_after_add_witness :
  exists self',
    addPointSource Demo.world (inl "G0V") "star" 2 90 PyNone Demo.test_scene
      = (self', Ok tt)
    /\ length (display Demo.test_scene []) = 6%nat
    /\ display self' []
       = (display Demo.test_scene []
          ++ [Plot [(2 * - sin (90 * PI / 180))%R] [(2 * cos (90 * PI / 180))%R] "*";
              Text (2 * - sin (90 * PI / 180))%R (2 * cos (90 * PI / 180))%R "star"])%list.
Proof.
  eexists. split; [reflexivity|].
  destruct (display_after_add Demo.world (inl "G0V") "star" 2 90 PyNone
              Demo.test_scene _ [] [] eq_refl) as (_ & _ & Hlen & Hd).
  split; [exact Hlen|exact Hd].
Defined.

(** The demonstration on the stand-in instrument, with no file yet. *)
Lemma test_obssim_writes_nothing_witness :
  exists fs' r,
    test_obssim Demo.world (Ok DemoInstrument.nircam) (fun _ => tt) 3 false ∅
      = (fs', r)
    /\ fs' = ∅.
Proof.
  destruct (test_obssim Demo.world (Ok DemoInstrument.nircam) (fun _ => tt) 3 false ∅)
    as [fs' r] eqn:H.
  exists fs', r. split; [reflexivity|].
  exact (proj1 (test_obssim_writes_nothing Demo.world (Ok DemoInstrument.nircam)
                  (fun _ => tt) 3 false ∅ fs' r H)).
Defined.
